(** * Event-propagation policy actions (src/js/actions/policy.js)

    A shallow embedding of the policy actions of spaces-design: the
    commands that register and unregister lists of event policies in the
    policy store and push the resulting master list to Photoshop through
    the UI adapter.

    The commands are asynchronous in the source (they return bluebird
    promises).  Every command declares write locks on [PS_APP] and
    [JS_POLICY], so the flux controller runs them one at a time; a command
    is therefore modelled as a state transformer that runs to completion
    and yields the settlement of its promise. *)

From stdpp Require Import gmap strings list sorting pretty.

Local Open Scope string_scope.
Local Open Scope list_scope.

(** ** JavaScript values the commands handle *)

(** A JavaScript [Error] object, identified by its message. *)
Record Error := { message : string }.

#[global] Instance Error_eq_dec : EqDecision Error.
Proof. solve_decision. Defined.

(** How a synchronous call completes: with a value, or by throwing. *)
Inductive Completion (A : Type) :=
| Normal (a : A)
| Throw (err : Error).
Arguments Normal {A} a.
Arguments Throw {A} err.

(** How a command ends: its promise is resolved or rejected, or the command
    throws before it has a promise to return. *)
Inductive Outcome (A : Type) :=
| Resolved (a : A)
| Rejected (err : Error)
| Thrown (err : Error).
Arguments Resolved {A} a.
Arguments Rejected {A} err.
Arguments Thrown {A} err.

(** An optional boolean parameter ([boolean=] in the JSDoc):
    [None] is [undefined], the parameter left out by the caller. *)
Definition truthy (b : option bool) : bool :=
  match b with
  | Some true => true
  | _ => false
  end.

(** ** The adapter's constants (adapter/ps/ui and adapter/os)

    The adapter is a separate package.  Of each table the member the
    actions name is listed, with one more member so that the choice made
    by the actions can be observed. *)
Module adapterUI.
Module policyAction.
Inductive t := ALWAYS_PROPAGATE | NEVER_PROPAGATE.
End policyAction.
Module keyboardPropagationMode.
Inductive t := NEVER_PROPAGATE | ALWAYS_PROPAGATE.
End keyboardPropagationMode.
End adapterUI.

Module adapterOS.
Module eventKind.
Inductive t := KEY_DOWN | KEY_UP.
End eventKind.
End adapterOS.

#[global] Instance policyAction_eq_dec : EqDecision adapterUI.policyAction.t.
Proof. solve_decision. Defined.
#[global] Instance keyboardPropagationMode_eq_dec :
  EqDecision adapterUI.keyboardPropagationMode.t.
Proof. solve_decision. Defined.
#[global] Instance os_eventKind_eq_dec : EqDecision adapterOS.eventKind.t.
Proof. solve_decision. Defined.

(** ** Event policies (js/models/eventpolicy) *)

(** [{shift: boolean=, control: boolean=, alt: boolean=, command: boolean=}] *)
Record Modifiers := {
  shift : option bool;
  control : option bool;
  alt : option bool;
  command : option bool
}.

(** [{number|string} key]: either a keyCode or a keyChar. *)
Inductive Key :=
| keyCode (n : Z)
| keyChar (s : string).

(** Modelled from the spec: the constructor [KeyboardEventPolicy] of
    js/models/eventpolicy is missing from the sources at hand.  A rule is
    "an action, an event-kind tag, a modifier set, and a key identifier";
    the record stores the four constructor arguments in the order in which
    [addKeydownPolicyCommand] passes them, and nothing in the actions ever
    inspects them. *)
Record EventPolicy := KeyboardEventPolicy {
  policy_action : adapterUI.policyAction.t;
  policy_eventKind : adapterOS.eventKind.t;
  policy_modifiers : Modifiers;
  policy_key : Key
}.

#[global] Instance Modifiers_eq_dec : EqDecision Modifiers.
Proof. solve_decision. Defined.
#[global] Instance Key_eq_dec : EqDecision Key.
Proof. solve_decision. Defined.
#[global] Instance EventPolicy_eq_dec : EqDecision EventPolicy.
Proof. solve_decision. Defined.

(** Identifier of an installed policy list. *)
Definition ListID := positive.

(** ** The policy store (js/stores/policy) *)

Module PolicyStore.

(** [PolicyStore.eventKind]: the two categories of policy lists. *)
Inductive eventKind := KEYBOARD | POINTER.

#[global] Instance eventKind_eq_dec : EqDecision eventKind.
Proof. solve_decision. Defined.

(** Modelled from the spec: js/stores/policy is missing from the sources at
    hand.  The store holds, "per Category, a mapping from ListID to
    PolicyList and a per-category next-ID counter". *)
Record Partition := {
  policyLists : gmap positive (list EventPolicy);
  nextID : positive
}.

Record t := {
  keyboard : Partition;
  pointer : Partition
}.

(** The store as created at application start: no lists, and the first
    identifier handed out is [1]. *)
Definition emptyPartition : Partition :=
  {| policyLists := ∅; nextID := 1%positive |}.

Definition initial : t :=
  {| keyboard := emptyPartition; pointer := emptyPartition |}.

Definition partition (kind : eventKind) (st : t) : Partition :=
  match kind with
  | KEYBOARD => keyboard st
  | POINTER => pointer st
  end.

Definition setPartition (kind : eventKind) (p : Partition) (st : t) : t :=
  match kind with
  | KEYBOARD => {| keyboard := p; pointer := pointer st |}
  | POINTER => {| keyboard := keyboard st; pointer := p |}
  end.

(** Modelled from the spec: [addPolicyList(category, rules) -> ListID]
    "allocates the next ID for category, stores rules as a new PolicyList
    under that ID, returns the ID"; the counter only increases. *)
Definition addPolicyList (kind : eventKind) (rules : list EventPolicy) (st : t)
  : ListID * t :=
  let p := partition kind st in
  let id := nextID p in
  (id, setPartition kind
         {| policyLists := <[id := rules]> (policyLists p);
            nextID := Pos.succ id |} st).

(** Modelled from the spec: [removePolicyList(category, id) -> bool]
    "removes the list if present, returns whether it was present"; for an
    unknown identifier it "returns false and leaves the store unchanged". *)
Definition removePolicyList (kind : eventKind) (id : ListID) (st : t)
  : bool * t :=
  let p := partition kind st in
  match policyLists p !! id with
  | Some _ =>
      (true, setPartition kind
               {| policyLists := delete id (policyLists p);
                  nextID := nextID p |} st)
  | None => (false, st)
  end.

(** The order in which registered lists enter the master list: ascending
    identifier. *)
Definition byListID : relation (ListID * list EventPolicy) :=
  λ a b, (a.1 ≤ b.1)%positive.

#[global] Instance byListID_dec : RelDecision byListID.
Proof. intros a b. unfold byListID. apply _. Defined.

(** The registered lists of one partition, oldest identifier first. *)
Definition entries (m : gmap positive (list EventPolicy))
  : list (ListID * list EventPolicy) :=
  merge_sort byListID (map_to_list m).

(** Modelled from the spec: [getMasterPolicyList(category)] is "the
    concatenation of all currently-registered PolicyLists for that
    category, in ascending ListID order"; it is recomputed on every call
    and has no effect on the store. *)
Definition getMasterPolicyList (kind : eventKind) (st : t) : list EventPolicy :=
  concat ((entries (policyLists (partition kind st))).*2).

(** Every identifier in use was handed out by the counter. *)
Definition partition_wf (p : Partition) : Prop :=
  map_Forall (λ id _, (id < nextID p)%positive) (policyLists p).

Definition wf (st : t) : Prop :=
  partition_wf (keyboard st) ∧ partition_wf (pointer st).

End PolicyStore.

(** ** The store as the actions see it

    The actions reach the store through [this.flux.store("policy")] and
    use three of its methods.  [removePolicyList] is the one call the
    source guards with [try]/[catch], so the interface lets it throw. *)
Class PolicyStoreOps (S : Type) := {
  addPolicyList : PolicyStore.eventKind → list EventPolicy → S → ListID * S;
  removePolicyList : PolicyStore.eventKind → ListID → S → Completion bool * S;
  getMasterPolicyList : PolicyStore.eventKind → S → list EventPolicy
}.

(** The store of the specification behind that interface; its
    [removePolicyList] never throws. *)
#[global] Instance PolicyStore_ops : PolicyStoreOps PolicyStore.t := {|
  addPolicyList := PolicyStore.addPolicyList;
  removePolicyList kind id st :=
    let '(removed, st') := PolicyStore.removePolicyList kind id st in
    (Normal removed, st');
  getMasterPolicyList := PolicyStore.getMasterPolicyList
|}.

(** ** Calls into Photoshop *)

(** [policyDescriptor = { defaultMode: policyMode }] *)
Record PolicyDescriptor := {
  defaultMode : adapterUI.keyboardPropagationMode.t
}.

(** The adapter functions the actions call, with their argument. *)
Inductive AdapterCall :=
| setKeyboardEventPropagationPolicy (masterPolicyList : list EventPolicy)
| setPointerEventPropagationPolicy (masterPolicyList : list EventPolicy)
| setKeyboardPropagationMode (policyDescriptor : PolicyDescriptor).

#[global] Instance PolicyDescriptor_eq_dec : EqDecision PolicyDescriptor.
Proof. solve_decision. Defined.
#[global] Instance AdapterCall_eq_dec : EqDecision AdapterCall.
Proof. solve_decision. Defined.

(** Photoshop's side of a call: given the calls made so far and the call
    at hand, the returned promise is resolved ([None]) or rejected with an
    error. *)
Definition Adapter := list AdapterCall → AdapterCall → option Error.

(** What a command can touch: the policy store and Photoshop, the latter
    seen through the log of calls made to it. *)
Record World (S : Type) := {
  policyStore : S;
  adapterCalls : list AdapterCall
}.
Arguments policyStore {S} w.
Arguments adapterCalls {S} w.

(** ** Commands *)

Definition Cmd (S A : Type) := World S → Outcome A * World S.

(** The locks an action declares (js/locks). *)
Inductive Lock := PS_APP | JS_POLICY.

Record Action (C : Type) := {
  action_command : C;
  reads : list Lock;
  writes : list Lock
}.
Arguments action_command {C} a.
Arguments reads {C} a.
Arguments writes {C} a.

Section Commands.
Context {S : Type} `{!PolicyStoreOps S}.
Variable adapterUI_call : Adapter.

(** Calling an adapter function: the call is logged and its promise
    settles as Photoshop decides. *)
Definition call (c : AdapterCall) : Cmd S () := λ w,
  (match adapterUI_call (adapterCalls w) c with
   | None => Resolved ()
   | Some err => Rejected err
   end,
   {| policyStore := policyStore w; adapterCalls := adapterCalls w ++ [c] |}).

(** [Promise.resolve()] and [Promise.reject(err)]. *)
Definition Promise_resolve {A} (a : A) : Cmd S A := λ w, (Resolved a, w).
Definition Promise_reject {A} (err : Error) : Cmd S A := λ w, (Rejected err, w).

(** [throw err] *)
Definition throw {A} (err : Error) : Cmd S A := λ w, (Thrown err, w).

(** [p.catch(handler)]: the handler runs only when [p] is rejected; what
    the handler throws rejects the resulting promise. *)
Definition promise_catch {A} (p : Cmd S A) (handler : Error → Cmd S A)
  : Cmd S A := λ w,
  match p w with
  | (Rejected err, w') =>
      match handler err w' with
      | (Thrown err', w'') => (Rejected err', w'')
      | r => r
      end
  | r => r
  end.

(** [p.return(value)]: when [p] is resolved, resolve with [value]. *)
Definition promise_return {A B} (p : Cmd S A) (value : B) : Cmd S B := λ w,
  match p w with
  | (Resolved _, w') => (Resolved value, w')
  | (Rejected err, w') => (Rejected err, w')
  | (Thrown err, w') => (Thrown err, w')
  end.

(** [try { policyStore.removePolicyList(kind, id); } catch (err2) { }]
    followed by [rest]: the store is updated as the call leaves it, and an
    exception is ignored. *)
Definition try_removePolicyList {A} (kind : PolicyStore.eventKind) (id : ListID)
    (rest : Cmd S A) : Cmd S A := λ w,
  let '(_, store') := removePolicyList kind id (policyStore w) in
  rest {| policyStore := store'; adapterCalls := adapterCalls w |}.

(** The adapter function both [_addPolicies] and [_removePolicies] pick
    into their local [commitFn]:
    [if (kind === PolicyStore.eventKind.KEYBOARD) ... else ...]. *)
Definition commitFn (kind : PolicyStore.eventKind)
  : list EventPolicy → AdapterCall :=
  if decide (kind = PolicyStore.KEYBOARD)
  then setKeyboardEventPropagationPolicy
  else setPointerEventPropagationPolicy.

(** [_addPolicies(kind, policies)] *)
Definition _addPolicies (kind : PolicyStore.eventKind)
    (policies : list EventPolicy) : Cmd S ListID := λ w,
  let '(policyListID, store1) := addPolicyList kind policies (policyStore w) in
  let masterPolicyList := getMasterPolicyList kind store1 in
  promise_return
    (promise_catch (call (commitFn kind masterPolicyList))
       (λ err, try_removePolicyList kind policyListID (throw err)))
    policyListID
    {| policyStore := store1; adapterCalls := adapterCalls w |}.

(** [_removePolicies(kind, id, commit)] *)
Definition _removePolicies (kind : PolicyStore.eventKind) (id : ListID)
    (commit : option bool) : Cmd S () := λ w,
  match removePolicyList kind id (policyStore w) with
  | (Throw err, store1) =>
      (Thrown err, {| policyStore := store1; adapterCalls := adapterCalls w |})
  | (Normal removed, store1) =>
      let w1 := {| policyStore := store1; adapterCalls := adapterCalls w |} in
      if removed then
        if truthy commit then
          let masterPolicyList := getMasterPolicyList kind store1 in
          call (commitFn kind masterPolicyList) w1
        else
          Promise_resolve () w1
      else
        Promise_reject
          {| message := "No policies found for id: " +:+ pretty id |} w1
  end.

(** [addKeyboardPoliciesCommand(policies)] *)
Definition addKeyboardPoliciesCommand (policies : list EventPolicy)
  : Cmd S ListID :=
  _addPolicies PolicyStore.KEYBOARD policies.

(** [removeKeyboardPoliciesCommand(id, commit)] *)
Definition removeKeyboardPoliciesCommand (id : ListID) (commit : option bool)
  : Cmd S () :=
  _removePolicies PolicyStore.KEYBOARD id commit.

(** [addPointerPoliciesCommand(policies)] *)
Definition addPointerPoliciesCommand (policies : list EventPolicy)
  : Cmd S ListID :=
  _addPolicies PolicyStore.POINTER policies.

(** [removePointerPoliciesCommand(id, commit)] *)
Definition removePointerPoliciesCommand (id : ListID) (commit : option bool)
  : Cmd S () :=
  _removePolicies PolicyStore.POINTER id commit.

Definition addKeyboardPolicies : Action (list EventPolicy → Cmd S ListID) :=
  {| action_command := addKeyboardPoliciesCommand;
     reads := []; writes := [PS_APP; JS_POLICY] |}.

Definition removeKeyboardPolicies : Action (ListID → option bool → Cmd S ()) :=
  {| action_command := removeKeyboardPoliciesCommand;
     reads := []; writes := [PS_APP; JS_POLICY] |}.

Definition addPointerPolicies : Action (list EventPolicy → Cmd S ListID) :=
  {| action_command := addPointerPoliciesCommand;
     reads := []; writes := [PS_APP; JS_POLICY] |}.

Definition removePointerPolicies : Action (ListID → option bool → Cmd S ()) :=
  {| action_command := removePointerPoliciesCommand;
     reads := []; writes := [PS_APP; JS_POLICY] |}.

(** [this.transfer(action, arg, extra)]: run the command of another action
    within the current one.  The commands transferred to here declare one
    parameter, so the surplus argument is dropped, as JavaScript does. *)
Definition transfer {A B X} (action : Action (A → Cmd S B)) (arg : A)
    (extra : X) : Cmd S B :=
  action_command action arg.

(** [addKeydownPolicyCommand(propagate, key, modifiers)] *)
Definition addKeydownPolicyCommand (propagate : bool) (key : Key)
    (modifiers : Modifiers) : Cmd S ListID :=
  let policyAction :=
    if propagate
    then adapterUI.policyAction.ALWAYS_PROPAGATE
    else adapterUI.policyAction.NEVER_PROPAGATE in
  let eventKind := adapterOS.eventKind.KEY_DOWN in
  let policy := KeyboardEventPolicy policyAction eventKind modifiers key in
  transfer addKeyboardPolicies [policy] true.

(** [beforeStartupCommand()] *)
Definition beforeStartupCommand : Cmd S () :=
  let policyMode := adapterUI.keyboardPropagationMode.NEVER_PROPAGATE in
  let policyDescriptor := {| defaultMode := policyMode |} in
  call (setKeyboardPropagationMode policyDescriptor).

Definition addKeydownPolicy : Action (bool → Key → Modifiers → Cmd S ListID) :=
  {| action_command := addKeydownPolicyCommand;
     reads := []; writes := [PS_APP; JS_POLICY] |}.

Definition beforeStartup : Action (Cmd S ()) :=
  {| action_command := beforeStartupCommand;
     reads := []; writes := [PS_APP; JS_POLICY] |}.

End Commands.

(** The strict version of [PolicyStore.byListID]: identifiers are told
    apart, so the entries of a partition are in strictly ascending order. *)
Definition beforeListID : relation (ListID * list EventPolicy) :=
  λ a b, (a.1 < b.1)%positive.

(** ** Histories of store operations

    To say which lists "were added and not yet removed", a history of
    operations on one category is replayed against the store while a
    ledger is kept beside it: an addition appends the identifier the store
    returned together with the rules, a removal strikes the identifier
    out.  The ledger never looks into the store. *)
Inductive StoreOp :=
| OpAdd (rules : list EventPolicy)
| OpRemove (id : ListID).

Definition Ledger := list (ListID * list EventPolicy).

Fixpoint replay (kind : PolicyStore.eventKind) (ops : list StoreOp)
    (st : PolicyStore.t) (ledger : Ledger) : PolicyStore.t * Ledger :=
  match ops with
  | [] => (st, ledger)
  | OpAdd rules :: ops' =>
      let '(id, st') := PolicyStore.addPolicyList kind rules st in
      replay kind ops' st' (ledger ++ [(id, rules)])
  | OpRemove id :: ops' =>
      let '(_, st') := PolicyStore.removePolicyList kind id st in
      replay kind ops' st' (filter (λ e, e.1 ≠ id) ledger)
  end.

(** ** A store whose removal throws

    An implementation of the store interface in which [removePolicyList]
    always throws and leaves the store as it is: it exercises the
    [catch (err2)] branch of [_addPolicies]. *)
Definition removalThrows : PolicyStoreOps PolicyStore.t := {|
  addPolicyList := PolicyStore.addPolicyList;
  removePolicyList kind id st :=
    (Throw {| message := "No policy list found for id: " +:+ pretty id |}, st);
  getMasterPolicyList := PolicyStore.getMasterPolicyList
|}.

(** ** Inputs used in the examples *)

Definition noModifiers : Modifiers :=
  {| shift := None; control := None; alt := None; command := None |}.

Definition escapeRule : EventPolicy :=
  KeyboardEventPolicy adapterUI.policyAction.ALWAYS_PROPAGATE
    adapterOS.eventKind.KEY_DOWN noModifiers (keyCode 27).

Definition letterRule : EventPolicy :=
  KeyboardEventPolicy adapterUI.policyAction.NEVER_PROPAGATE
    adapterOS.eventKind.KEY_DOWN noModifiers (keyChar "a").

Definition installFailed : Error := {| message := "install failed" |}.

(** Photoshop accepting every call, and Photoshop rejecting every call. *)
Definition accepting : Adapter := λ _ _, None.
Definition rejecting : Adapter := λ _ _, Some installFailed.

Definition freshWorld : World PolicyStore.t :=
  {| policyStore := PolicyStore.initial; adapterCalls := [] |}.

(** The world after [escapeRule] was installed as keyboard list 1. *)
Definition oneListWorld : World PolicyStore.t :=
  (addKeyboardPoliciesCommand accepting [escapeRule] freshWorld).2.

(** ** Sessions: the exported actions, run one after another

    The module exports six actions.  A request names one of them with its
    arguments; the controller runs the command of the action.  Additions
    resolve with the identifier of the list, the other commands with
    nothing. *)
Inductive Request :=
| AddKeydownPolicy (propagate : bool) (key : Key) (modifiers : Modifiers)
| AddKeyboardPolicies (policies : list EventPolicy)
| RemoveKeyboardPolicies (id : ListID) (commit : option bool)
| AddPointerPolicies (policies : list EventPolicy)
| RemovePointerPolicies (id : ListID) (commit : option bool)
| BeforeStartup.

Definition outcome_map {A B} (f : A → B) (o : Outcome A) : Outcome B :=
  match o with
  | Resolved a => Resolved (f a)
  | Rejected err => Rejected err
  | Thrown err => Thrown err
  end.

Section Sessions.
Context {S : Type} `{!PolicyStoreOps S}.
Variable adapterUI_call : Adapter.

Definition perform (r : Request) : Cmd S (option ListID) := λ w,
  match r with
  | AddKeydownPolicy propagate key modifiers =>
      let '(o, w') :=
        action_command (addKeydownPolicy adapterUI_call)
          propagate key modifiers w in
      (outcome_map Some o, w')
  | AddKeyboardPolicies policies =>
      let '(o, w') :=
        action_command (addKeyboardPolicies adapterUI_call) policies w in
      (outcome_map Some o, w')
  | RemoveKeyboardPolicies id commit =>
      let '(o, w') :=
        action_command (removeKeyboardPolicies adapterUI_call) id commit w in
      (outcome_map (λ _, None) o, w')
  | AddPointerPolicies policies =>
      let '(o, w') :=
        action_command (addPointerPolicies adapterUI_call) policies w in
      (outcome_map Some o, w')
  | RemovePointerPolicies id commit =>
      let '(o, w') :=
        action_command (removePointerPolicies adapterUI_call) id commit w in
      (outcome_map (λ _, None) o, w')
  | BeforeStartup =>
      let '(o, w') := action_command (beforeStartup adapterUI_call) w in
      (outcome_map (λ _, None) o, w')
  end.

Fixpoint session (rs : list Request) (w : World S)
  : list (Outcome (option ListID)) * World S :=
  match rs with
  | [] => ([], w)
  | r :: rs' =>
      let '(o, w1) := perform r w in
      let '(os, w2) := session rs' w1 in
      (o :: os, w2)
  end.

End Sessions.

(** What a caller can tell from requests and outcomes alone.  A request
    that adds names a category and rules; a request that removes names a
    category and an identifier. *)
Definition addition (r : Request)
  : option (PolicyStore.eventKind * list EventPolicy) :=
  match r with
  | AddKeydownPolicy propagate key modifiers =>
      Some (PolicyStore.KEYBOARD,
            [KeyboardEventPolicy
               (if propagate
                then adapterUI.policyAction.ALWAYS_PROPAGATE
                else adapterUI.policyAction.NEVER_PROPAGATE)
               adapterOS.eventKind.KEY_DOWN modifiers key])
  | AddKeyboardPolicies policies => Some (PolicyStore.KEYBOARD, policies)
  | AddPointerPolicies policies => Some (PolicyStore.POINTER, policies)
  | _ => None
  end.

Definition removal (r : Request) : option (PolicyStore.eventKind * ListID) :=
  match r with
  | RemoveKeyboardPolicies id _ => Some (PolicyStore.KEYBOARD, id)
  | RemovePointerPolicies id _ => Some (PolicyStore.POINTER, id)
  | _ => None
  end.

(** The caller's ledger for one category: an addition that resolved
    enters it under the identifier it resolved with, a removal request
    strikes its identifier out however the request ended, and nothing
    else changes it. *)
Definition record (kind : PolicyStore.eventKind) (r : Request)
    (o : Outcome (option ListID)) (ledger : Ledger) : Ledger :=
  match addition r, removal r, o with
  | Some (k, policies), _, Resolved (Some id) =>
      if decide (k = kind) then ledger ++ [(id, policies)] else ledger
  | _, Some (k, id), _ =>
      if decide (k = kind) then filter (λ e, e.1 ≠ id) ledger else ledger
  | _, _, _ => ledger
  end.

Fixpoint sessionLedger (kind : PolicyStore.eventKind) (rs : list Request)
    (os : list (Outcome (option ListID))) (ledger : Ledger) : Ledger :=
  match rs, os with
  | r :: rs', o :: os' => sessionLedger kind rs' os' (record kind r o ledger)
  | _, _ => ledger
  end.

(** The identifiers with which the additions to one category resolved,
    in the order of the requests. *)
Fixpoint resolvedIds (kind : PolicyStore.eventKind) (rs : list Request)
    (os : list (Outcome (option ListID))) : list ListID :=
  match rs, os with
  | r :: rs', o :: os' =>
      match addition r, o with
      | Some (k, _), Resolved (Some id) =>
          if decide (k = kind)
          then id :: resolvedIds kind rs' os'
          else resolvedIds kind rs' os'
      | _, _ => resolvedIds kind rs' os'
      end
  | _, _ => []
  end.

(** * The store: master list and registered lists *)

Section store_theory.

Abbreviation Entry := (ListID * list EventPolicy)%type.

#[local] Instance byListID_total : Total PolicyStore.byListID.
Proof. intros a b. unfold PolicyStore.byListID. lia. Qed.

#[local] Instance byListID_trans : Transitive PolicyStore.byListID.
Proof. intros a b c. unfold PolicyStore.byListID. lia. Qed.

#[local] Instance beforeListID_antisymm : AntiSymm (=) beforeListID.
Proof. intros a b. unfold beforeListID. lia. Qed.

Lemma strictly_sorted (l : list Entry) :
  StronglySorted PolicyStore.byListID l → NoDup (l.*1) →
  StronglySorted beforeListID l.
Proof.
  induction 1 as [|a l Hs IH Hall]; intros Hnd; [constructor|].
  rewrite fmap_cons, NoDup_cons in Hnd. destruct Hnd as [Hnotin Hnd].
  constructor; [by apply IH|].
  rewrite Forall_forall in Hall |- *. intros b Hb.
  specialize (Hall b Hb). unfold PolicyStore.byListID in Hall.
  unfold beforeListID.
  assert (a.1 ≠ b.1); [|lia].
  intros Heq. apply Hnotin. rewrite Heq. by apply list_elem_of_fmap_2.
Qed.

Lemma entries_Permutation m : PolicyStore.entries m ≡ₚ map_to_list m.
Proof. apply merge_sort_Permutation. Qed.

Lemma entries_sorted m : StronglySorted beforeListID (PolicyStore.entries m).
Proof.
  apply strictly_sorted.
  - apply StronglySorted_merge_sort; apply _.
  - rewrite entries_Permutation. apply NoDup_fst_map_to_list.
Qed.

Lemma elem_of_entries m id rules :
  (id, rules) ∈ PolicyStore.entries m ↔ m !! id = Some rules.
Proof. rewrite entries_Permutation. apply elem_of_map_to_list. Qed.

Lemma sorted_NoDup (l : list Entry) : StronglySorted beforeListID l → NoDup l.
Proof.
  induction 1 as [|a l Hs IH Hall]; constructor; [|done].
  intros Hin. rewrite Forall_forall in Hall.
  specialize (Hall a Hin). unfold beforeListID in Hall. lia.
Qed.

Lemma sorted_fst (l : list Entry) :
  StronglySorted beforeListID l → StronglySorted Pos.lt (l.*1).
Proof.
  induction 1 as [|a l Hs IH Hall]; [constructor|].
  rewrite fmap_cons. constructor; [done|].
  rewrite Forall_fmap. by apply (Forall_impl _ _ _ Hall).
Qed.

(** A sorted list with the same members as the map is the list of its
    entries. *)
Lemma entries_unique m (l : list Entry) :
  StronglySorted beforeListID l →
  (∀ id rules, (id, rules) ∈ l ↔ m !! id = Some rules) →
  PolicyStore.entries m = l.
Proof.
  intros Hs Hl. apply (StronglySorted_unique beforeListID).
  - apply entries_sorted.
  - done.
  - apply NoDup_Permutation;
      [apply sorted_NoDup, entries_sorted|by apply sorted_NoDup|].
    intros [id rules]. by rewrite elem_of_entries, Hl.
Qed.

Lemma entries_empty : PolicyStore.entries ∅ = [].
Proof.
  apply entries_unique; [constructor|].
  intros id rules. rewrite lookup_empty. set_solver.
Qed.

(** A list registered under an identifier above all others goes last. *)
Lemma entries_insert_last m id rules :
  map_Forall (λ j _, (j < id)%positive) m →
  PolicyStore.entries (<[id := rules]> m) = PolicyStore.entries m ++ [(id, rules)].
Proof.
  intros Hlt. apply entries_unique.
  - apply StronglySorted_app_2; [|apply entries_sorted|repeat constructor].
    intros [j x] b Hj Hb. apply list_elem_of_singleton in Hb as ->.
    apply elem_of_entries in Hj. unfold beforeListID; simpl.
    by apply (Hlt j x).
  - intros j x. rewrite elem_of_app, list_elem_of_singleton, elem_of_entries.
    destruct (decide (id = j)) as [->|Hne].
    + rewrite lookup_insert_eq. split.
      * intros [Hj|Hj]; [|congruence]. apply Hlt in Hj. simpl in Hj. lia.
      * intros [= ->]. by right.
    + rewrite lookup_insert_ne by done. split; [|by left].
      intros [Hj|Hj]; [done|congruence].
Qed.

(** Removing a list strikes out its entry and moves no other. *)
Lemma entries_delete m id :
  PolicyStore.entries (delete id m)
  = filter (λ e, e.1 ≠ id) (PolicyStore.entries m).
Proof.
  apply entries_unique.
  - generalize (entries_sorted m).
    induction 1 as [|a l Hs IH Hall]; [constructor|].
    destruct (decide (a.1 ≠ id)) as [Ha|Ha];
      [rewrite filter_cons_True by done|by rewrite filter_cons_False].
    constructor; [done|].
    rewrite Forall_forall in Hall |- *. intros b Hb.
    apply list_elem_of_filter in Hb as [_ Hb]. by apply Hall.
  - intros j x. rewrite list_elem_of_filter, elem_of_entries; simpl.
    destruct (decide (id = j)) as [->|Hne].
    + rewrite lookup_delete_eq. split; [by intros [? _]|done].
    + rewrite lookup_delete_ne by done. split; [by intros [_ ?]|].
      intros Hj. split; [congruence|done].
Qed.

Lemma partition_setPartition kind p st :
  PolicyStore.partition kind (PolicyStore.setPartition kind p st) = p.
Proof. by destruct kind. Qed.

Lemma partition_setPartition_ne kind kind' p st :
  kind ≠ kind' →
  PolicyStore.partition kind' (PolicyStore.setPartition kind p st)
  = PolicyStore.partition kind' st.
Proof. by destruct kind, kind'. Qed.

Lemma setPartition_partition kind st :
  PolicyStore.setPartition kind (PolicyStore.partition kind st) st = st.
Proof. by destruct kind, st. Qed.

Lemma wf_partition kind st :
  PolicyStore.wf st → PolicyStore.partition_wf (PolicyStore.partition kind st).
Proof. intros [Hk Hp]. by destruct kind. Qed.

Lemma wf_setPartition kind p st :
  PolicyStore.wf st → PolicyStore.partition_wf p →
  PolicyStore.wf (PolicyStore.setPartition kind p st).
Proof. intros [Hk Hp] Hwf. by destruct kind; split. Qed.

Lemma wf_initial : PolicyStore.wf PolicyStore.initial.
Proof. split; apply map_Forall_empty. Qed.

(** The identifier the counter hands out next is not in use. *)
Lemma nextID_fresh p :
  PolicyStore.partition_wf p →
  PolicyStore.policyLists p !! PolicyStore.nextID p = None.
Proof.
  intros Hwf. destruct (_ !! _) as [rules|] eqn:Hl; [|done].
  apply Hwf in Hl. simpl in Hl. lia.
Qed.

Lemma wf_addPolicyList kind rules st :
  PolicyStore.wf st → PolicyStore.wf (PolicyStore.addPolicyList kind rules st).2.
Proof.
  intros Hwf. apply wf_setPartition; [done|].
  apply map_Forall_insert_2; simpl; [lia|].
  eapply map_Forall_impl; [by apply (wf_partition kind)|].
  simpl. intros. lia.
Qed.

Lemma wf_removePolicyList kind id st :
  PolicyStore.wf st → PolicyStore.wf (PolicyStore.removePolicyList kind id st).2.
Proof.
  intros Hwf. unfold PolicyStore.removePolicyList.
  destruct (_ !! _); [|done]. apply wf_setPartition; [done|].
  apply map_Forall_delete. by apply (wf_partition kind).
Qed.

End store_theory.

Section master_list.

Lemma master_addPolicyList kind rules st :
  PolicyStore.wf st →
  PolicyStore.getMasterPolicyList kind (PolicyStore.addPolicyList kind rules st).2
  = PolicyStore.getMasterPolicyList kind st ++ rules.
Proof.
  intros Hwf. unfold PolicyStore.getMasterPolicyList, PolicyStore.addPolicyList.
  simpl. rewrite partition_setPartition. simpl.
  rewrite entries_insert_last by by apply (wf_partition kind).
  rewrite fmap_app, concat_app. simpl. by rewrite app_nil_r.
Qed.

Lemma master_removePolicyList kind id st :
  PolicyStore.getMasterPolicyList kind (PolicyStore.removePolicyList kind id st).2
  = concat (filter (λ e, e.1 ≠ id)
      (PolicyStore.entries
         (PolicyStore.policyLists (PolicyStore.partition kind st)))).*2.
Proof.
  unfold PolicyStore.getMasterPolicyList, PolicyStore.removePolicyList.
  destruct (_ !! id) as [rules|] eqn:Hid; simpl.
  - rewrite partition_setPartition. simpl. by rewrite entries_delete.
  - by rewrite <-entries_delete, delete_id.
Qed.

(** Operations on one category leave the other category alone. *)
Lemma addPolicyList_other kind kind' rules st :
  kind ≠ kind' →
  PolicyStore.partition kind' (PolicyStore.addPolicyList kind rules st).2
  = PolicyStore.partition kind' st.
Proof. intros Hne. by apply partition_setPartition_ne. Qed.

Lemma removePolicyList_other kind kind' id st :
  kind ≠ kind' →
  PolicyStore.partition kind' (PolicyStore.removePolicyList kind id st).2
  = PolicyStore.partition kind' st.
Proof.
  intros Hne. unfold PolicyStore.removePolicyList.
  destruct (_ !! id); [|done]. by apply partition_setPartition_ne.
Qed.

(** Replaying a history keeps the ledger equal to the entries of the
    partition. *)
Lemma replay_ledger kind ops : ∀ st ledger,
  PolicyStore.wf st →
  ledger = PolicyStore.entries
             (PolicyStore.policyLists (PolicyStore.partition kind st)) →
  PolicyStore.wf (replay kind ops st ledger).1 ∧
  (replay kind ops st ledger).2
  = PolicyStore.entries
      (PolicyStore.policyLists
         (PolicyStore.partition kind (replay kind ops st ledger).1)).
Proof.
  induction ops as [|[rules|id] ops IH]; intros st ledger Hwf ->; simpl.
  - done.
  - apply IH; [by apply wf_addPolicyList|]. simpl.
    rewrite partition_setPartition. simpl.
    by rewrite entries_insert_last by by apply (wf_partition kind).
  - pose proof (wf_removePolicyList kind id st Hwf) as Hwf'.
    unfold PolicyStore.removePolicyList in *.
    destruct (_ !! id) as [rules|] eqn:Hid; simpl in *.
    + apply IH; [done|]. rewrite partition_setPartition. simpl.
      by rewrite entries_delete.
    + apply IH; [done|]. by rewrite <-entries_delete, delete_id.
Qed.

End master_list.

(** * The commands, over any implementation of the store *)

Section command_theory.
Context {S : Type} `{!PolicyStoreOps S}.
Variable adapter : Adapter.

(** The install call [_addPolicies] makes: the master list is read after
    the new list has been registered. *)
Lemma _addPolicies_resolved kind policies (w : World S) :
  let added := addPolicyList kind policies (policyStore w) in
  let pushed := commitFn kind (getMasterPolicyList kind added.2) in
  adapter (adapterCalls w) pushed = None →
  _addPolicies adapter kind policies w
  = (Resolved added.1,
     {| policyStore := added.2; adapterCalls := adapterCalls w ++ [pushed] |}).
Proof.
  simpl. intros Hok. unfold _addPolicies.
  destruct (addPolicyList kind policies (policyStore w)) as [id store1].
  simpl in *. unfold promise_return, promise_catch, call. simpl.
  by rewrite Hok.
Qed.

(** When the install is rejected, the handler runs the guarded removal
    and rethrows the error it was given: whether the removal returns or
    throws does not show in the outcome. *)
Lemma _addPolicies_rejected kind policies (w : World S) err :
  let added := addPolicyList kind policies (policyStore w) in
  let pushed := commitFn kind (getMasterPolicyList kind added.2) in
  adapter (adapterCalls w) pushed = Some err →
  _addPolicies adapter kind policies w
  = (Rejected err,
     {| policyStore := (removePolicyList kind added.1 added.2).2;
        adapterCalls := adapterCalls w ++ [pushed] |}).
Proof.
  simpl. intros Hfail. unfold _addPolicies.
  destruct (addPolicyList kind policies (policyStore w)) as [id store1].
  simpl in *.
  unfold promise_return, promise_catch, call, try_removePolicyList, throw.
  simpl. rewrite Hfail.
  by destruct (removePolicyList kind id store1) as [removed store2].
Qed.

(** [_removePolicies], case by case on what the store answers. *)
Lemma _removePolicies_unfold kind id commit (w : World S) :
  _removePolicies adapter kind id commit w
  = let removal := removePolicyList kind id (policyStore w) in
    let w1 := {| policyStore := removal.2; adapterCalls := adapterCalls w |} in
    match removal.1 with
    | Throw err => (Thrown err, w1)
    | Normal false =>
        (Rejected {| message := "No policies found for id: " +:+ pretty id |},
         w1)
    | Normal true =>
        if truthy commit then
          let pushed := commitFn kind (getMasterPolicyList kind removal.2) in
          (match adapter (adapterCalls w) pushed with
           | None => Resolved ()
           | Some err => Rejected err
           end,
           {| policyStore := removal.2;
              adapterCalls := adapterCalls w ++ [pushed] |})
        else (Resolved (), w1)
    end.
Proof.
  unfold _removePolicies.
  destruct (removePolicyList kind id (policyStore w)) as [[[|]|err] store1];
    simpl; done.
Qed.

End command_theory.

(** [removePolicyList] of the store of the specification, behind the
    interface. *)
Lemma removePolicyList_model kind id (st : PolicyStore.t) :
  removePolicyList kind id st
  = (Normal (PolicyStore.removePolicyList kind id st).1,
     (PolicyStore.removePolicyList kind id st).2).
Proof.
  simpl. by destruct (PolicyStore.removePolicyList kind id st).
Qed.

Lemma removePolicyList_present kind id rules (st : PolicyStore.t) :
  PolicyStore.policyLists (PolicyStore.partition kind st) !! id = Some rules →
  PolicyStore.removePolicyList kind id st
  = (true,
     PolicyStore.setPartition kind
       {| PolicyStore.policyLists :=
            delete id (PolicyStore.policyLists (PolicyStore.partition kind st));
          PolicyStore.nextID := PolicyStore.nextID (PolicyStore.partition kind st)
       |} st).
Proof. intros Hid. unfold PolicyStore.removePolicyList. by rewrite Hid. Qed.

Lemma removePolicyList_absent kind id (st : PolicyStore.t) :
  PolicyStore.policyLists (PolicyStore.partition kind st) !! id = None →
  PolicyStore.removePolicyList kind id st = (false, st).
Proof. intros Hid. unfold PolicyStore.removePolicyList. by rewrite Hid. Qed.

(** Registering a list and removing it again restores the registered lists
    of the category; the counter stays advanced. *)
Lemma add_then_remove kind rules (st : PolicyStore.t) :
  PolicyStore.wf st →
  let added := PolicyStore.addPolicyList kind rules st in
  PolicyStore.removePolicyList kind added.1 added.2
  = (true,
     PolicyStore.setPartition kind
       {| PolicyStore.policyLists :=
            PolicyStore.policyLists (PolicyStore.partition kind st);
          PolicyStore.nextID :=
            Pos.succ (PolicyStore.nextID (PolicyStore.partition kind st)) |}
       st).
Proof.
  intros Hwf. simpl.
  erewrite removePolicyList_present; last first.
  { unfold PolicyStore.addPolicyList. simpl.
    rewrite partition_setPartition. simpl. apply lookup_insert_eq. }
  unfold PolicyStore.addPolicyList. simpl.
  rewrite partition_setPartition. simpl.
  rewrite delete_insert_id
    by by apply nextID_fresh, (wf_partition kind).
  by destruct kind.
Qed.

(** The rejected install on the store of the specification. *)
Lemma _addPolicies_rejected_model adapter kind policies
    (w : World PolicyStore.t) err :
  let added := PolicyStore.addPolicyList kind policies (policyStore w) in
  let pushed := commitFn kind (PolicyStore.getMasterPolicyList kind added.2) in
  PolicyStore.wf (policyStore w) →
  adapter (adapterCalls w) pushed = Some err →
  _addPolicies adapter kind policies w
  = (Rejected err,
     {| policyStore :=
          PolicyStore.setPartition kind
            {| PolicyStore.policyLists :=
                 PolicyStore.policyLists
                   (PolicyStore.partition kind (policyStore w));
               PolicyStore.nextID :=
                 Pos.succ
                   (PolicyStore.nextID
                      (PolicyStore.partition kind (policyStore w))) |}
            (policyStore w);
        adapterCalls := adapterCalls w ++ [pushed] |}).
Proof.
  intros added pushed Hwf Hfail.
  pose proof (_addPolicies_rejected adapter kind policies w err) as Hrun.
  rewrite (Hrun Hfail). clear Hrun.
  do 2 f_equal. rewrite removePolicyList_model.
  change (addPolicyList kind policies (policyStore w)) with added.
  unfold added. cbn [snd].
  by rewrite (add_then_remove kind policies (policyStore w) Hwf).
Qed.

(** * The scenarios of the specification, run on the model *)

(** Scenario A: on an empty store a first keyboard list gets identifier 1
    and is the whole master list. *)
Example scenario_A :
  (addKeyboardPoliciesCommand accepting [escapeRule] freshWorld).1
  = Resolved 1%positive
  ∧ PolicyStore.getMasterPolicyList PolicyStore.KEYBOARD
      (policyStore oneListWorld)
    = [escapeRule].
Proof. split; by vm_compute. Qed.

(** Scenarios B and C: a second list gets identifier 2 and follows the
    first in the master list; removing list 1 with [commit] set leaves the
    second list alone. *)
Example scenario_B_C :
  let w2 := (addKeyboardPoliciesCommand accepting [letterRule] oneListWorld).2 in
  (addKeyboardPoliciesCommand accepting [letterRule] oneListWorld).1
  = Resolved 2%positive
  ∧ PolicyStore.getMasterPolicyList PolicyStore.KEYBOARD (policyStore w2)
    = [escapeRule; letterRule]
  ∧ (removeKeyboardPoliciesCommand accepting 1%positive (Some true) w2).1
    = Resolved ()
  ∧ PolicyStore.getMasterPolicyList PolicyStore.KEYBOARD
      (policyStore
         (removeKeyboardPoliciesCommand accepting 1%positive (Some true) w2).2)
    = [letterRule].
Proof. repeat split; by vm_compute. Qed.

(** Scenario D: an install that is rejected leaves no trace of the rule in
    the master list. *)
Example scenario_D :
  (addKeyboardPoliciesCommand rejecting [letterRule] oneListWorld).1
  = Rejected installFailed
  ∧ PolicyStore.getMasterPolicyList PolicyStore.KEYBOARD
      (policyStore
         (addKeyboardPoliciesCommand rejecting [letterRule] oneListWorld).2)
    = [escapeRule].
Proof. split; by vm_compute. Qed.

(** * The claims *)

(** A rolled-back addition uses up its identifier: identifiers are never
    handed out twice, so the counter is not part of what the rollback
    restores.  On the store of a fresh application, adding a keyboard list
    while Photoshop rejects the install ends with the original error and
    the keyboard counter has moved from 1 to 2. *)
Lemma failed_install_uses_up_an_identifier :
  (addKeyboardPoliciesCommand rejecting [letterRule] freshWorld).1
  = Rejected installFailed
  ∧ policyStore (addKeyboardPoliciesCommand rejecting [letterRule] freshWorld).2
    ≠ policyStore freshWorld
  ∧ PolicyStore.nextID (PolicyStore.keyboard (policyStore freshWorld))
    = 1%positive
  ∧ PolicyStore.nextID
      (PolicyStore.keyboard
         (policyStore
            (addKeyboardPoliciesCommand rejecting [letterRule] freshWorld).2))
    = 2%positive.
Proof. repeat split. by vm_compute. Qed.

(** C1: if the install call made by [_addPolicies] is rejected, the
    command is rejected with that same error, whatever the guarded removal
    does, be it return or throw, on any implementation of the store.  On
    the store of the specification the removal takes the just-allocated
    list out again and the store is as it was before the call, with no
    phantom entry: every category has the registered lists and the master
    list it had before the call and the other category is untouched.  The
    counter of the category, which only ever increases, has advanced by
    one. *)
Theorem addPolicies_failed_install_rolls_back
    (adapter : Adapter) (kind : PolicyStore.eventKind)
    (policies : list EventPolicy) (err : Error) :
  (∀ (S : Type) (store : PolicyStoreOps S) (w : World S),
     let added := addPolicyList kind policies (policyStore w) in
     let pushed := commitFn kind (getMasterPolicyList kind added.2) in
     adapter (adapterCalls w) pushed = Some err →
     _addPolicies adapter kind policies w
     = (Rejected err,
        {| policyStore := (removePolicyList kind added.1 added.2).2;
           adapterCalls := adapterCalls w ++ [pushed] |}))
  ∧
  (∀ w : World PolicyStore.t,
     let added := PolicyStore.addPolicyList kind policies (policyStore w) in
     let pushed :=
       commitFn kind (PolicyStore.getMasterPolicyList kind added.2) in
     PolicyStore.wf (policyStore w) →
     adapter (adapterCalls w) pushed = Some err →
     let w' := (_addPolicies adapter kind policies w).2 in
     (_addPolicies adapter kind policies w).1 = Rejected err
     ∧ (∀ k, PolicyStore.policyLists (PolicyStore.partition k (policyStore w'))
             = PolicyStore.policyLists (PolicyStore.partition k (policyStore w)))
     ∧ (∀ k, PolicyStore.getMasterPolicyList k (policyStore w')
             = PolicyStore.getMasterPolicyList k (policyStore w))
     ∧ (∀ k, k ≠ kind →
             PolicyStore.partition k (policyStore w')
             = PolicyStore.partition k (policyStore w))
     ∧ PolicyStore.nextID (PolicyStore.partition kind (policyStore w'))
       = Pos.succ (PolicyStore.nextID (PolicyStore.partition kind (policyStore w)))).
Proof.
  split.
  - intros S store w. apply _addPolicies_rejected.
  - intros w added pushed Hwf Hfail w'.
    pose proof (_addPolicies_rejected_model adapter kind policies w err
                  Hwf Hfail) as Hrun.
    subst w'. rewrite Hrun. cbn [fst snd policyStore].
    assert (∀ k,
      PolicyStore.policyLists
        (PolicyStore.partition k
           (PolicyStore.setPartition kind
              {| PolicyStore.policyLists :=
                   PolicyStore.policyLists
                     (PolicyStore.partition kind (policyStore w));
                 PolicyStore.nextID :=
                   Pos.succ
                     (PolicyStore.nextID
                        (PolicyStore.partition kind (policyStore w))) |}
              (policyStore w)))
      = PolicyStore.policyLists (PolicyStore.partition k (policyStore w)))
      as Hlists.
    { intros k. destruct (decide (kind = k)) as [->|Hne].
      - by rewrite partition_setPartition.
      - by rewrite partition_setPartition_ne. }
    split_and!.
    + done.
    + done.
    + intros k. unfold PolicyStore.getMasterPolicyList. by rewrite Hlists.
    + intros k Hne. by rewrite partition_setPartition_ne.
    + by rewrite partition_setPartition.
Qed.

(** The theorem of C1 at work: on the store whose removal throws, with a
    list installed and Photoshop rejecting, the command still ends with
    Photoshop's error; on the store of the specification the keyboard
    master list is what it was. *)
Lemma addPolicies_failed_install_rolls_back_witness :
  @_addPolicies _ removalThrows rejecting PolicyStore.KEYBOARD [letterRule]
    oneListWorld
  = (Rejected installFailed,
     {| policyStore :=
          (PolicyStore.addPolicyList PolicyStore.KEYBOARD [letterRule]
             (policyStore oneListWorld)).2;
        adapterCalls :=
          adapterCalls oneListWorld
          ++ [setKeyboardEventPropagationPolicy [escapeRule; letterRule]] |})
  ∧ PolicyStore.getMasterPolicyList PolicyStore.KEYBOARD
      (policyStore
         (_addPolicies rejecting PolicyStore.KEYBOARD [letterRule]
            oneListWorld).2)
    = [escapeRule].
Proof.
  destruct (addPolicies_failed_install_rolls_back rejecting
              PolicyStore.KEYBOARD [letterRule] installFailed) as [Hany Hmodel].
  split.
  - apply (Hany PolicyStore.t removalThrows oneListWorld). reflexivity.
  - destruct (Hmodel oneListWorld) as (_ & _ & Hmaster & _).
    + apply (bool_decide_unpack _). vm_compute. exact I.
    + reflexivity.
    + rewrite Hmaster. vm_compute. reflexivity.
Defined.

(** C2: for every history of additions and removals on one category,
    starting from the store of a fresh application, the master list is the
    concatenation of the rule lists on the ledger, that is, of the lists
    added and not yet removed, each once and with its rules in the order
    given, oldest registration first; and the identifiers on the ledger
    are strictly ascending. *)
Theorem master_list_follows_history
    (kind : PolicyStore.eventKind) (ops : list StoreOp) :
  PolicyStore.getMasterPolicyList kind
    (replay kind ops PolicyStore.initial []).1
  = concat ((replay kind ops PolicyStore.initial []).2.*2)
  ∧ StronglySorted Pos.lt ((replay kind ops PolicyStore.initial []).2.*1).
Proof.
  destruct (replay_ledger kind ops PolicyStore.initial []) as [_ Hledger].
  - apply wf_initial.
  - destruct kind; simpl; by rewrite entries_empty.
  - split.
    + unfold PolicyStore.getMasterPolicyList. by rewrite <-Hledger.
    + rewrite Hledger. apply sorted_fst, entries_sorted.
Qed.

(** C3: when Photoshop accepts the install, [_addPolicies] has registered
    the rules under an identifier that was not in use, has read the master
    list after that registration, so that it is the former master list
    followed by the new rules, has made that one call to the install
    function, and resolves with the identifier the store returned. *)
Theorem addPolicies_success
    (adapter : Adapter) (kind : PolicyStore.eventKind)
    (policies : list EventPolicy) (w : World PolicyStore.t) :
  let added := PolicyStore.addPolicyList kind policies (policyStore w) in
  let master := PolicyStore.getMasterPolicyList kind added.2 in
  PolicyStore.wf (policyStore w) →
  adapter (adapterCalls w) (commitFn kind master) = None →
  PolicyStore.policyLists (PolicyStore.partition kind (policyStore w))
    !! added.1 = None
  ∧ PolicyStore.policyLists (PolicyStore.partition kind added.2)
      !! added.1 = Some policies
  ∧ master = PolicyStore.getMasterPolicyList kind (policyStore w) ++ policies
  ∧ _addPolicies adapter kind policies w
    = (Resolved added.1,
       {| policyStore := added.2;
          adapterCalls := adapterCalls w ++ [commitFn kind master] |}).
Proof.
  intros added master Hwf Hok. split_and!.
  - by apply nextID_fresh, (wf_partition kind).
  - unfold added, PolicyStore.addPolicyList. cbn [fst snd].
    rewrite partition_setPartition. apply lookup_insert_eq.
  - by apply master_addPolicyList.
  - pose proof (_addPolicies_resolved adapter kind policies w) as Hrun.
    by apply Hrun.
Qed.

(** The theorem of C3 on the second keyboard list of a session. *)
Lemma addPolicies_success_witness :
  _addPolicies accepting PolicyStore.KEYBOARD [letterRule] oneListWorld
  = (Resolved 2%positive,
     {| policyStore :=
          (PolicyStore.addPolicyList PolicyStore.KEYBOARD [letterRule]
             (policyStore oneListWorld)).2;
        adapterCalls :=
          [setKeyboardEventPropagationPolicy [escapeRule];
           setKeyboardEventPropagationPolicy [escapeRule; letterRule]] |}).
Proof.
  destruct (addPolicies_success accepting PolicyStore.KEYBOARD [letterRule]
              oneListWorld) as (_ & _ & _ & Hrun).
  - apply (bool_decide_unpack _). vm_compute. exact I.
  - reflexivity.
  - rewrite Hrun. vm_compute. reflexivity.
Defined.

(** C4: removing an identifier that is not registered in the category is
    rejected with the error "No policies found for id: " followed by the
    identifier, whatever [commit] is;  no adapter call is made and the
    store is unchanged, the world after the command being the world
    before it.  The message tells identifiers apart. *)
Theorem removePolicies_unknown_id
    (adapter : Adapter) (kind : PolicyStore.eventKind) (id : ListID)
    (commit : option bool) (w : World PolicyStore.t) :
  PolicyStore.policyLists (PolicyStore.partition kind (policyStore w)) !! id
  = None →
  _removePolicies adapter kind id commit w
  = (Rejected {| message := "No policies found for id: " +:+ pretty id |}, w)
  ∧ ∀ id' : ListID,
      "No policies found for id: " +:+ pretty id'
      = "No policies found for id: " +:+ pretty id →
      id' = id.
Proof.
  intros Hid. split.
  - rewrite _removePolicies_unfold, removePolicyList_model.
    rewrite (removePolicyList_absent kind id (policyStore w) Hid).
    cbn [fst snd]. by destruct w.
  - intros id' Heq. simplify_eq/=. by apply (inj pretty).
Qed.

(** The theorem of C4 on scenario E of the specification: pointer list
    999 on a store with no pointer lists, with [commit] set. *)
Lemma removePolicies_unknown_id_witness :
  removePointerPoliciesCommand accepting 999%positive (Some true) oneListWorld
  = (Rejected {| message := "No policies found for id: 999" |}, oneListWorld).
Proof.
  destruct (removePolicies_unknown_id accepting PolicyStore.POINTER
              999%positive (Some true) oneListWorld) as [Hrun _].
  - reflexivity.
  - unfold removePointerPoliciesCommand. rewrite Hrun. reflexivity.
Defined.

(** C5: removing a registered identifier with [commit] set takes the list
    out of the store, reads the master list of the store after the
    removal, makes that one install call, and settles as the call does.
    The store after the command is the store after the removal whether
    the call was accepted or rejected: the list stays absent. *)
Theorem removePolicies_commit
    (adapter : Adapter) (kind : PolicyStore.eventKind) (id : ListID)
    (rules : list EventPolicy) (w : World PolicyStore.t) :
  let store1 := (PolicyStore.removePolicyList kind id (policyStore w)).2 in
  let pushed := commitFn kind (PolicyStore.getMasterPolicyList kind store1) in
  PolicyStore.policyLists (PolicyStore.partition kind (policyStore w)) !! id
  = Some rules →
  _removePolicies adapter kind id (Some true) w
  = (match adapter (adapterCalls w) pushed with
     | None => Resolved ()
     | Some err => Rejected err
     end,
     {| policyStore := store1; adapterCalls := adapterCalls w ++ [pushed] |})
  ∧ PolicyStore.policyLists (PolicyStore.partition kind store1) !! id = None
  ∧ (∀ id', id' ≠ id →
       PolicyStore.policyLists (PolicyStore.partition kind store1) !! id'
       = PolicyStore.policyLists (PolicyStore.partition kind (policyStore w))
           !! id')
  ∧ PolicyStore.getMasterPolicyList kind store1
    = concat (filter (λ e, e.1 ≠ id)
        (PolicyStore.entries
           (PolicyStore.policyLists
              (PolicyStore.partition kind (policyStore w))))).*2.
Proof.
  intros store1 pushed Hid. split_and!.
  - rewrite _removePolicies_unfold, removePolicyList_model.
    subst pushed store1.
    rewrite (removePolicyList_present kind id rules (policyStore w) Hid).
    reflexivity.
  - subst store1.
    rewrite (removePolicyList_present kind id rules (policyStore w) Hid).
    cbn [snd]. rewrite partition_setPartition. apply lookup_delete_eq.
  - intros id' Hne. subst store1.
    rewrite (removePolicyList_present kind id rules (policyStore w) Hid).
    cbn [snd]. rewrite partition_setPartition. by apply lookup_delete_ne.
  - apply master_removePolicyList.
Qed.

(** The theorem of C5 with Photoshop rejecting the install: the command is
    rejected with Photoshop's error and keyboard list 1 is gone. *)
Lemma removePolicies_commit_witness :
  (removeKeyboardPoliciesCommand rejecting 1%positive (Some true)
     oneListWorld).1
  = Rejected installFailed
  ∧ PolicyStore.policyLists
      (PolicyStore.keyboard
         (policyStore
            (removeKeyboardPoliciesCommand rejecting 1%positive (Some true)
               oneListWorld).2))
    !! 1%positive = None.
Proof.
  destruct (removePolicies_commit rejecting PolicyStore.KEYBOARD 1%positive
              [escapeRule] oneListWorld) as (Hrun & Hgone & _).
  - reflexivity.
  - unfold removeKeyboardPoliciesCommand. rewrite Hrun. cbn [fst snd].
    split; [reflexivity|exact Hgone].
Defined.

(** C6: removing a registered identifier with [commit] false takes the
    list out of the store and resolves; the log of adapter calls is the
    log from before the command. *)
Theorem removePolicies_local
    (adapter : Adapter) (kind : PolicyStore.eventKind) (id : ListID)
    (rules : list EventPolicy) (w : World PolicyStore.t) :
  let store1 := (PolicyStore.removePolicyList kind id (policyStore w)).2 in
  PolicyStore.policyLists (PolicyStore.partition kind (policyStore w)) !! id
  = Some rules →
  _removePolicies adapter kind id (Some false) w
  = (Resolved (), {| policyStore := store1; adapterCalls := adapterCalls w |})
  ∧ PolicyStore.policyLists (PolicyStore.partition kind store1) !! id = None
  ∧ (∀ id', id' ≠ id →
       PolicyStore.policyLists (PolicyStore.partition kind store1) !! id'
       = PolicyStore.policyLists (PolicyStore.partition kind (policyStore w))
           !! id').
Proof.
  intros store1 Hid. split_and!.
  - rewrite _removePolicies_unfold, removePolicyList_model.
    subst store1.
    rewrite (removePolicyList_present kind id rules (policyStore w) Hid).
    reflexivity.
  - subst store1.
    rewrite (removePolicyList_present kind id rules (policyStore w) Hid).
    cbn [snd]. rewrite partition_setPartition. apply lookup_delete_eq.
  - intros id' Hne. subst store1.
    rewrite (removePolicyList_present kind id rules (policyStore w) Hid).
    cbn [snd]. rewrite partition_setPartition. by apply lookup_delete_ne.
Qed.

(** The theorem of C6 with a Photoshop that would reject any call: the
    command resolves all the same, and the log still holds the single
    call of the earlier installation. *)
Lemma removePolicies_local_witness :
  (removeKeyboardPoliciesCommand rejecting 1%positive (Some false)
     oneListWorld).1
  = Resolved ()
  ∧ adapterCalls
      (removeKeyboardPoliciesCommand rejecting 1%positive (Some false)
         oneListWorld).2
    = [setKeyboardEventPropagationPolicy [escapeRule]]
  ∧ PolicyStore.getMasterPolicyList PolicyStore.KEYBOARD
      (policyStore
         (removeKeyboardPoliciesCommand rejecting 1%positive (Some false)
            oneListWorld).2)
    = [].
Proof.
  destruct (removePolicies_local rejecting PolicyStore.KEYBOARD 1%positive
              [escapeRule] oneListWorld) as (Hrun & _).
  - reflexivity.
  - unfold removeKeyboardPoliciesCommand. rewrite Hrun. cbn [fst snd].
    split_and!; [reflexivity|reflexivity|by vm_compute].
Defined.

(** C7: on any implementation of the store, the keyboard commands call
    [setKeyboardEventPropagationPolicy] and the pointer commands call
    [setPointerEventPropagationPolicy], and neither makes any other call.
    An addition makes exactly one call, with the master list read after
    the registration; a removal makes one call, with the master list read
    after the removal, when the store reports the list removed and
    [commit] is set, and none otherwise. *)
Theorem category_selects_install_function
    {S : Type} `{!PolicyStoreOps S} (adapter : Adapter) (w : World S) :
  (∀ policies,
     adapterCalls (addKeyboardPoliciesCommand adapter policies w).2
     = adapterCalls w
       ++ [setKeyboardEventPropagationPolicy
             (getMasterPolicyList PolicyStore.KEYBOARD
                (addPolicyList PolicyStore.KEYBOARD policies
                   (policyStore w)).2)])
  ∧ (∀ policies,
     adapterCalls (addPointerPoliciesCommand adapter policies w).2
     = adapterCalls w
       ++ [setPointerEventPropagationPolicy
             (getMasterPolicyList PolicyStore.POINTER
                (addPolicyList PolicyStore.POINTER policies
                   (policyStore w)).2)])
  ∧ (∀ id commit,
     adapterCalls (removeKeyboardPoliciesCommand adapter id commit w).2
     = adapterCalls w
       ++ match (removePolicyList PolicyStore.KEYBOARD id (policyStore w)).1
          with
          | Normal true =>
              if truthy commit
              then [setKeyboardEventPropagationPolicy
                      (getMasterPolicyList PolicyStore.KEYBOARD
                         (removePolicyList PolicyStore.KEYBOARD id
                            (policyStore w)).2)]
              else []
          | _ => []
          end)
  ∧ (∀ id commit,
     adapterCalls (removePointerPoliciesCommand adapter id commit w).2
     = adapterCalls w
       ++ match (removePolicyList PolicyStore.POINTER id (policyStore w)).1
          with
          | Normal true =>
              if truthy commit
              then [setPointerEventPropagationPolicy
                      (getMasterPolicyList PolicyStore.POINTER
                         (removePolicyList PolicyStore.POINTER id
                            (policyStore w)).2)]
              else []
          | _ => []
          end).
Proof.
  assert (∀ kind policies,
    adapterCalls (_addPolicies adapter kind policies w).2
    = adapterCalls w
      ++ [commitFn kind
            (getMasterPolicyList kind
               (addPolicyList kind policies (policyStore w)).2)]) as Hadd.
  { intros kind policies.
    destruct (adapter (adapterCalls w)
                (commitFn kind
                   (getMasterPolicyList kind
                      (addPolicyList kind policies (policyStore w)).2)))
      as [err|] eqn:Hcall.
    - by rewrite (_addPolicies_rejected adapter kind policies w err Hcall).
    - by rewrite (_addPolicies_resolved adapter kind policies w Hcall). }
  assert (∀ kind id commit,
    adapterCalls (_removePolicies adapter kind id commit w).2
    = adapterCalls w
      ++ match (removePolicyList kind id (policyStore w)).1 with
         | Normal true =>
             if truthy commit
             then [commitFn kind
                     (getMasterPolicyList kind
                        (removePolicyList kind id (policyStore w)).2)]
             else []
         | _ => []
         end) as Hremove.
  { intros kind id commit. rewrite _removePolicies_unfold. cbn zeta.
    destruct (removePolicyList kind id (policyStore w)) as [[[|]|err] store1];
      cbn [fst snd adapterCalls]; [|by rewrite app_nil_r..].
    destruct (truthy commit); cbn [snd adapterCalls]; [done|].
    by rewrite app_nil_r. }
  split_and!.
  - intros policies. apply (Hadd PolicyStore.KEYBOARD).
  - intros policies. apply (Hadd PolicyStore.POINTER).
  - intros id commit. apply (Hremove PolicyStore.KEYBOARD).
  - intros id commit. apply (Hremove PolicyStore.POINTER).
Qed.

(** C8: [addKeydownPolicyCommand] builds one keyboard rule, for the
    key-down event, with the key and the modifiers it was given, whose
    action is always-propagate when [propagate] is true and never-propagate
    when it is false, and runs [addKeyboardPolicies] on the list holding
    that one rule: outcome, identifier and world are those of that
    command. *)
Theorem addKeydownPolicy_delegates
    {S : Type} `{!PolicyStoreOps S} (adapter : Adapter) (key : Key)
    (modifiers : Modifiers) (w : World S) :
  addKeydownPolicyCommand adapter true key modifiers w
  = action_command (addKeyboardPolicies adapter)
      [{| policy_action := adapterUI.policyAction.ALWAYS_PROPAGATE;
          policy_eventKind := adapterOS.eventKind.KEY_DOWN;
          policy_modifiers := modifiers;
          policy_key := key |}] w
  ∧ addKeydownPolicyCommand adapter false key modifiers w
    = action_command (addKeyboardPolicies adapter)
        [{| policy_action := adapterUI.policyAction.NEVER_PROPAGATE;
            policy_eventKind := adapterOS.eventKind.KEY_DOWN;
            policy_modifiers := modifiers;
            policy_key := key |}] w.
Proof. split; reflexivity. Qed.

(** C9: [beforeStartupCommand] makes exactly one adapter call, to
    [setKeyboardPropagationMode] with the default mode never-propagate,
    settles as that call does, and leaves the store as it was. *)
Theorem beforeStartup_sets_default_mode
    {S : Type} `{!PolicyStoreOps S} (adapter : Adapter) (w : World S) :
  let pushed :=
    setKeyboardPropagationMode
      {| defaultMode := adapterUI.keyboardPropagationMode.NEVER_PROPAGATE |} in
  action_command (beforeStartup adapter) w
  = (match adapter (adapterCalls w) pushed with
     | None => Resolved ()
     | Some err => Rejected err
     end,
     {| policyStore := policyStore w;
        adapterCalls := adapterCalls w ++ [pushed] |}).
Proof. reflexivity. Qed.

(** C10: leaving [commit] out of the exported actions
    [removeKeyboardPolicies] and [removePointerPolicies] is the same as
    passing false, on any implementation of the store.  On the store of
    the specification each of the two, called without [commit], removes a
    registered list from its category and resolves with no adapter call,
    and rejects an identifier that is not registered with the error
    "No policies found for id: " followed by the identifier, leaving the
    world as it was. *)
Theorem remove_commit_omitted (adapter : Adapter) (id : ListID) :
  (∀ (S : Type) (store : PolicyStoreOps S) (w : World S),
     action_command (removeKeyboardPolicies adapter) id None w
     = action_command (removeKeyboardPolicies adapter) id (Some false) w
     ∧ action_command (removePointerPolicies adapter) id None w
       = action_command (removePointerPolicies adapter) id (Some false) w)
  ∧ (∀ w : World PolicyStore.t,
     action_command (removeKeyboardPolicies adapter) id None w
     = match PolicyStore.policyLists (PolicyStore.keyboard (policyStore w))
               !! id with
       | Some _ =>
           (Resolved (),
            {| policyStore :=
                 {| PolicyStore.keyboard :=
                      {| PolicyStore.policyLists :=
                           delete id
                             (PolicyStore.policyLists
                                (PolicyStore.keyboard (policyStore w)));
                         PolicyStore.nextID :=
                           PolicyStore.nextID
                             (PolicyStore.keyboard (policyStore w)) |};
                    PolicyStore.pointer :=
                      PolicyStore.pointer (policyStore w) |};
               adapterCalls := adapterCalls w |})
       | None =>
           (Rejected
              {| message := "No policies found for id: " +:+ pretty id |}, w)
       end)
  ∧ (∀ w : World PolicyStore.t,
     action_command (removePointerPolicies adapter) id None w
     = match PolicyStore.policyLists (PolicyStore.pointer (policyStore w))
               !! id with
       | Some _ =>
           (Resolved (),
            {| policyStore :=
                 {| PolicyStore.keyboard :=
                      PolicyStore.keyboard (policyStore w);
                    PolicyStore.pointer :=
                      {| PolicyStore.policyLists :=
                           delete id
                             (PolicyStore.policyLists
                                (PolicyStore.pointer (policyStore w)));
                         PolicyStore.nextID :=
                           PolicyStore.nextID
                             (PolicyStore.pointer (policyStore w)) |} |};
               adapterCalls := adapterCalls w |})
       | None =>
           (Rejected
              {| message := "No policies found for id: " +:+ pretty id |}, w)
       end).
Proof.
  assert (∀ (kind : PolicyStore.eventKind) (w : World PolicyStore.t),
     _removePolicies adapter kind id None w
     = match PolicyStore.policyLists
               (PolicyStore.partition kind (policyStore w)) !! id with
       | Some _ =>
           (Resolved (),
            {| policyStore :=
                 PolicyStore.setPartition kind
                   {| PolicyStore.policyLists :=
                        delete id
                          (PolicyStore.policyLists
                             (PolicyStore.partition kind (policyStore w)));
                      PolicyStore.nextID :=
                        PolicyStore.nextID
                          (PolicyStore.partition kind (policyStore w)) |}
                   (policyStore w);
               adapterCalls := adapterCalls w |})
       | None =>
           (Rejected
              {| message := "No policies found for id: " +:+ pretty id |}, w)
       end) as Hremove.
  { intros kind w. rewrite _removePolicies_unfold, removePolicyList_model.
    destruct (PolicyStore.policyLists
                (PolicyStore.partition kind (policyStore w)) !! id)
      as [rules|] eqn:Hid.
    - by rewrite (removePolicyList_present kind id rules (policyStore w) Hid).
    - rewrite (removePolicyList_absent kind id (policyStore w) Hid).
      cbn [fst snd]. by destruct w. }
  split_and!.
  - intros S store w. split; reflexivity.
  - intros w. exact (Hremove PolicyStore.KEYBOARD w).
  - intros w. exact (Hremove PolicyStore.POINTER w).
Qed.

(** * Further properties of the commands *)

(** ** On any implementation of the store *)

(** X1: [_removePolicies] does not guard its call to the store.  When
    [removePolicyList] throws, the command throws that error itself, before
    it has a promise to return, whatever [commit] is; no adapter call is
    made and the store is as the failed call left it. *)
Theorem removePolicies_store_throws
    {S : Type} `{!PolicyStoreOps S} (adapter : Adapter)
    (kind : PolicyStore.eventKind) (id : ListID) (commit : option bool)
    (w : World S) (err : Error) :
  (removePolicyList kind id (policyStore w)).1 = Throw err →
  _removePolicies adapter kind id commit w
  = (Thrown err,
     {| policyStore := (removePolicyList kind id (policyStore w)).2;
        adapterCalls := adapterCalls w |}).
Proof.
  intros Hthrow. rewrite _removePolicies_unfold. cbn zeta.
  by rewrite Hthrow.
Qed.

Lemma removePolicies_store_throws_witness :
  @_removePolicies _ removalThrows accepting PolicyStore.KEYBOARD 1%positive
    (Some true) oneListWorld
  = (Thrown {| message := "No policy list found for id: 1" |}, oneListWorld).
Proof.
  rewrite (@removePolicies_store_throws _ removalThrows accepting
             PolicyStore.KEYBOARD 1%positive (Some true) oneListWorld
             {| message := "No policy list found for id: 1" |}).
  - reflexivity.
  - reflexivity.
Defined.

(** X2: [_addPolicies] never throws, on any store: it resolves with the
    identifier the store handed out exactly when the install is accepted,
    and then the store is the store after the registration, no removal
    having run; it is rejected with Photoshop's error exactly when the
    install is rejected, and then the store is what the guarded removal
    left. *)
Theorem addPolicies_settles_as_install
    {S : Type} `{!PolicyStoreOps S} (adapter : Adapter)
    (kind : PolicyStore.eventKind) (policies : list EventPolicy)
    (w : World S) :
  let added := addPolicyList kind policies (policyStore w) in
  let pushed := commitFn kind (getMasterPolicyList kind added.2) in
  _addPolicies adapter kind policies w
  = match adapter (adapterCalls w) pushed with
    | None =>
        (Resolved added.1,
         {| policyStore := added.2;
            adapterCalls := adapterCalls w ++ [pushed] |})
    | Some err =>
        (Rejected err,
         {| policyStore := (removePolicyList kind added.1 added.2).2;
            adapterCalls := adapterCalls w ++ [pushed] |})
    end
  ∧ ∀ err, (_addPolicies adapter kind policies w).1 ≠ Thrown err.
Proof.
  intros added pushed.
  assert (_addPolicies adapter kind policies w
    = match adapter (adapterCalls w) pushed with
      | None =>
          (Resolved added.1,
           {| policyStore := added.2;
              adapterCalls := adapterCalls w ++ [pushed] |})
      | Some err =>
          (Rejected err,
           {| policyStore := (removePolicyList kind added.1 added.2).2;
              adapterCalls := adapterCalls w ++ [pushed] |})
      end) as Hrun.
  { destruct (adapter (adapterCalls w) pushed) as [err|] eqn:Hcall.
    - by apply _addPolicies_rejected.
    - by apply _addPolicies_resolved. }
  split; [done|]. intros err. rewrite Hrun.
  by destruct (adapter (adapterCalls w) pushed).
Qed.

(** X3: a command that commits and resolves leaves Photoshop in step with
    the store.  After an addition that resolved, and after a removal with
    [commit] set that resolved, the last adapter call is the install
    function of the category, and its argument is the master list of the
    store as the command left it. *)
Theorem resolved_commit_in_step
    {S : Type} `{!PolicyStoreOps S} (adapter : Adapter)
    (kind : PolicyStore.eventKind) (w : World S) :
  (∀ policies id,
     (_addPolicies adapter kind policies w).1 = Resolved id →
     last (adapterCalls (_addPolicies adapter kind policies w).2)
     = Some (commitFn kind
               (getMasterPolicyList kind
                  (policyStore (_addPolicies adapter kind policies w).2))))
  ∧ (∀ id,
     (_removePolicies adapter kind id (Some true) w).1 = Resolved () →
     last (adapterCalls (_removePolicies adapter kind id (Some true) w).2)
     = Some (commitFn kind
               (getMasterPolicyList kind
                  (policyStore
                     (_removePolicies adapter kind id (Some true) w).2)))).
Proof.
  split.
  - intros policies id.
    destruct (addPolicies_settles_as_install adapter kind policies w)
      as [-> _].
    destruct (adapter (adapterCalls w) _) as [err|]; [done|].
    intros _. cbn [snd adapterCalls policyStore]. apply last_snoc.
  - intros id. rewrite _removePolicies_unfold. cbn zeta.
    destruct (removePolicyList kind id (policyStore w)) as [[[|]|err] store1];
      cbn [fst snd truthy]; [|done..].
    destruct (adapter (adapterCalls w) _) as [err|]; [done|].
    intros _. cbn [snd adapterCalls policyStore]. apply last_snoc.
Qed.

Lemma resolved_commit_in_step_witness :
  last (adapterCalls
          (_addPolicies accepting PolicyStore.KEYBOARD [letterRule]
             oneListWorld).2)
  = Some (setKeyboardEventPropagationPolicy [escapeRule; letterRule])
  ∧ last (adapterCalls
            (_removePolicies accepting PolicyStore.KEYBOARD 1%positive
               (Some true) oneListWorld).2)
    = Some (setKeyboardEventPropagationPolicy []).
Proof.
  destruct (resolved_commit_in_step accepting PolicyStore.KEYBOARD
              oneListWorld) as [Hadd Hremove].
  split.
  - rewrite (Hadd [letterRule] 2%positive); [|reflexivity].
    vm_compute. reflexivity.
  - rewrite (Hremove 1%positive); [|reflexivity].
    vm_compute. reflexivity.
Defined.

(** ** On the store of the specification *)

Lemma removePolicyList_lists kind id (st : PolicyStore.t) :
  PolicyStore.policyLists
    (PolicyStore.partition kind (PolicyStore.removePolicyList kind id st).2)
  = delete id (PolicyStore.policyLists (PolicyStore.partition kind st)).
Proof.
  unfold PolicyStore.removePolicyList.
  destruct (_ !! id) as [rules|] eqn:Hid; cbn [snd].
  - by rewrite partition_setPartition.
  - by rewrite delete_id.
Qed.

Lemma removePolicyList_nextID kind k id (st : PolicyStore.t) :
  PolicyStore.nextID
    (PolicyStore.partition k (PolicyStore.removePolicyList kind id st).2)
  = PolicyStore.nextID (PolicyStore.partition k st).
Proof.
  unfold PolicyStore.removePolicyList.
  destruct (_ !! id) as [rules|] eqn:Hid; cbn [snd]; [|done].
  destruct (decide (kind = k)) as [->|Hne].
  - by rewrite partition_setPartition.
  - by rewrite partition_setPartition_ne.
Qed.

Lemma removePolicyList_reports kind id (st : PolicyStore.t) :
  (PolicyStore.removePolicyList kind id st).1
  = bool_decide
      (is_Some (PolicyStore.policyLists (PolicyStore.partition kind st) !! id)).
Proof.
  unfold PolicyStore.removePolicyList.
  destruct (_ !! id) as [rules|] eqn:Hid; cbn [fst].
  - by rewrite bool_decide_eq_true_2.
  - rewrite bool_decide_eq_false_2; [done|]. by intros [? ?].
Qed.

(** [_removePolicies] on the store of the specification. *)
Lemma _removePolicies_model adapter kind id commit (w : World PolicyStore.t) :
  let removal := PolicyStore.removePolicyList kind id (policyStore w) in
  let pushed :=
    commitFn kind (PolicyStore.getMasterPolicyList kind removal.2) in
  _removePolicies adapter kind id commit w
  = if removal.1 then
      if truthy commit then
        (match adapter (adapterCalls w) pushed with
         | None => Resolved ()
         | Some err => Rejected err
         end,
         {| policyStore := removal.2;
            adapterCalls := adapterCalls w ++ [pushed] |})
      else
        (Resolved (),
         {| policyStore := removal.2; adapterCalls := adapterCalls w |})
    else
      (Rejected {| message := "No policies found for id: " +:+ pretty id |},
       {| policyStore := removal.2; adapterCalls := adapterCalls w |}).
Proof.
  intros removal pushed.
  rewrite _removePolicies_unfold, removePolicyList_model.
  subst pushed removal. cbn zeta. cbn [fst snd].
  by destruct (PolicyStore.removePolicyList kind id (policyStore w)).1.
Qed.

Lemma _removePolicies_store adapter kind id commit (w : World PolicyStore.t) :
  policyStore (_removePolicies adapter kind id commit w).2
  = (PolicyStore.removePolicyList kind id (policyStore w)).2.
Proof.
  rewrite _removePolicies_model. cbn zeta.
  by destruct (PolicyStore.removePolicyList kind id (policyStore w)).1,
    (truthy commit).
Qed.

(** [_addPolicies] on the store of the specification, for a store whose
    identifiers were all handed out by the counter. *)
Lemma _addPolicies_model adapter kind policies (w : World PolicyStore.t) :
  let added := PolicyStore.addPolicyList kind policies (policyStore w) in
  let pushed := commitFn kind (PolicyStore.getMasterPolicyList kind added.2) in
  PolicyStore.wf (policyStore w) →
  _addPolicies adapter kind policies w
  = match adapter (adapterCalls w) pushed with
    | None =>
        (Resolved added.1,
         {| policyStore := added.2;
            adapterCalls := adapterCalls w ++ [pushed] |})
    | Some err =>
        (Rejected err,
         {| policyStore :=
              PolicyStore.setPartition kind
                {| PolicyStore.policyLists :=
                     PolicyStore.policyLists
                       (PolicyStore.partition kind (policyStore w));
                   PolicyStore.nextID :=
                     Pos.succ
                       (PolicyStore.nextID
                          (PolicyStore.partition kind (policyStore w))) |}
                (policyStore w);
            adapterCalls := adapterCalls w ++ [pushed] |})
    end.
Proof.
  intros added pushed Hwf.
  destruct (adapter (adapterCalls w) pushed) as [err|] eqn:Hcall.
  - by apply _addPolicies_rejected_model.
  - pose proof (_addPolicies_resolved adapter kind policies w) as Hrun.
    by apply Hrun.
Qed.

Lemma wf_rolled_back kind (st : PolicyStore.t) :
  PolicyStore.wf st →
  PolicyStore.wf
    (PolicyStore.setPartition kind
       {| PolicyStore.policyLists :=
            PolicyStore.policyLists (PolicyStore.partition kind st);
          PolicyStore.nextID :=
            Pos.succ (PolicyStore.nextID (PolicyStore.partition kind st)) |}
       st).
Proof.
  intros Hwf. apply wf_setPartition; [done|].
  eapply map_Forall_impl; [by apply (wf_partition kind)|].
  simpl. intros. lia.
Qed.

(** Every command keeps the identifiers in use below the counter. *)
Lemma wf_addPolicies adapter kind policies (w : World PolicyStore.t) :
  PolicyStore.wf (policyStore w) →
  PolicyStore.wf (policyStore (_addPolicies adapter kind policies w).2).
Proof.
  intros Hwf. rewrite _addPolicies_model by done.
  destruct (adapter (adapterCalls w) _); cbn [snd policyStore].
  - by apply wf_rolled_back.
  - by apply wf_addPolicyList.
Qed.

Lemma wf_removePolicies adapter kind id commit (w : World PolicyStore.t) :
  PolicyStore.wf (policyStore w) →
  PolicyStore.wf (policyStore (_removePolicies adapter kind id commit w).2).
Proof.
  intros Hwf. rewrite _removePolicies_store. by apply wf_removePolicyList.
Qed.

Lemma lists_rolled_back kind k (st : PolicyStore.t) next :
  PolicyStore.policyLists
    (PolicyStore.partition k
       (PolicyStore.setPartition kind
          {| PolicyStore.policyLists :=
               PolicyStore.policyLists (PolicyStore.partition kind st);
             PolicyStore.nextID := next |} st))
  = PolicyStore.policyLists (PolicyStore.partition k st).
Proof.
  destruct (decide (kind = k)) as [->|Hne].
  - by rewrite partition_setPartition.
  - by rewrite partition_setPartition_ne.
Qed.

(** X4: a command given one category leaves the partition of the other
    category as it was, identifiers, rules and counter, whether the install
    is accepted or rejected; so the other category's master list is the
    same before and after. *)
Theorem commands_keep_to_their_category
    (adapter : Adapter) (kind kind' : PolicyStore.eventKind)
    (w : World PolicyStore.t) :
  kind ≠ kind' →
  (∀ policies,
     PolicyStore.partition kind'
       (policyStore (_addPolicies adapter kind policies w).2)
     = PolicyStore.partition kind' (policyStore w))
  ∧ (∀ id commit,
     PolicyStore.partition kind'
       (policyStore (_removePolicies adapter kind id commit w).2)
     = PolicyStore.partition kind' (policyStore w)).
Proof.
  intros Hne. split.
  - intros policies.
    destruct (addPolicies_settles_as_install adapter kind policies w)
      as [-> _].
    destruct (adapter (adapterCalls w) _) as [err|]; cbn [snd policyStore].
    + rewrite removePolicyList_model. cbn [snd].
      rewrite removePolicyList_other by done.
      by apply addPolicyList_other.
    + by apply addPolicyList_other.
  - intros id commit. rewrite _removePolicies_store.
    by apply removePolicyList_other.
Qed.

Lemma commands_keep_to_their_category_witness :
  PolicyStore.getMasterPolicyList PolicyStore.KEYBOARD
    (policyStore
       (_addPolicies rejecting PolicyStore.POINTER [letterRule]
          oneListWorld).2)
  = [escapeRule].
Proof.
  destruct (commands_keep_to_their_category rejecting PolicyStore.POINTER
              PolicyStore.KEYBOARD oneListWorld) as [Hadd _].
  - discriminate.
  - unfold PolicyStore.getMasterPolicyList. rewrite (Hadd [letterRule]).
    vm_compute. reflexivity.
Defined.

(** X5: removing an identifier a second time is rejected with the error
    "No policies found for id: " followed by the identifier and changes
    nothing, whatever the first removal did (committed or not, accepted or
    rejected by Photoshop, or itself rejected because the identifier was
    not there). *)
Theorem remove_twice
    (adapter : Adapter) (kind : PolicyStore.eventKind) (id : ListID)
    (commit1 commit2 : option bool) (w : World PolicyStore.t) :
  _removePolicies adapter kind id commit2
    (_removePolicies adapter kind id commit1 w).2
  = (Rejected {| message := "No policies found for id: " +:+ pretty id |},
     (_removePolicies adapter kind id commit1 w).2).
Proof.
  set (w1 := (_removePolicies adapter kind id commit1 w).2).
  assert (PolicyStore.policyLists
            (PolicyStore.partition kind (policyStore w1)) !! id = None)
    as Hgone.
  { unfold w1. rewrite _removePolicies_store, removePolicyList_lists.
    apply lookup_delete_eq. }
  rewrite _removePolicies_model. cbn zeta.
  rewrite (removePolicyList_absent kind id (policyStore w1) Hgone).
  cbn [fst snd]. by destruct w1.
Qed.

(** X6: adding a list and then removing it with [commit] set is a round
    trip.  When the install of the addition is accepted, the removal finds
    the identifier the addition resolved with, its install call carries
    the master list from before the addition, and afterwards every
    category has the registered lists and master list it started with. *)
Theorem add_then_committed_remove
    (adapter : Adapter) (kind : PolicyStore.eventKind)
    (policies : list EventPolicy) (w : World PolicyStore.t) :
  let master0 := PolicyStore.getMasterPolicyList kind (policyStore w) in
  let id := (PolicyStore.addPolicyList kind policies (policyStore w)).1 in
  let w1 := (_addPolicies adapter kind policies w).2 in
  let r := _removePolicies adapter kind id (Some true) w1 in
  PolicyStore.wf (policyStore w) →
  adapter (adapterCalls w) (commitFn kind (master0 ++ policies)) = None →
  (_addPolicies adapter kind policies w).1 = Resolved id
  ∧ adapterCalls r.2
    = adapterCalls w
      ++ [commitFn kind (master0 ++ policies); commitFn kind master0]
  ∧ r.1
    = match adapter (adapterCalls w ++ [commitFn kind (master0 ++ policies)])
              (commitFn kind master0) with
      | None => Resolved ()
      | Some err => Rejected err
      end
  ∧ (∀ k, PolicyStore.policyLists (PolicyStore.partition k (policyStore r.2))
          = PolicyStore.policyLists (PolicyStore.partition k (policyStore w)))
  ∧ (∀ k, PolicyStore.getMasterPolicyList k (policyStore r.2)
          = PolicyStore.getMasterPolicyList k (policyStore w)).
Proof.
  intros master0 id w1 r Hwf Hok.
  pose proof (_addPolicies_model adapter kind policies w Hwf) as Hadd.
  cbn zeta in Hadd.
  rewrite (master_addPolicyList kind policies (policyStore w) Hwf) in Hadd.
  fold master0 in Hadd. rewrite Hok in Hadd.
  pose proof (_removePolicies_model adapter kind id (Some true) w1) as Hrm.
  cbn zeta in Hrm. fold r in Hrm.
  assert (policyStore w1
          = (PolicyStore.addPolicyList kind policies (policyStore w)).2)
    as Hst by (unfold w1; by rewrite Hadd).
  assert (adapterCalls w1
          = adapterCalls w ++ [commitFn kind (master0 ++ policies)])
    as Hlog by (unfold w1; by rewrite Hadd).
  rewrite Hst, Hlog in Hrm. unfold id in Hrm.
  rewrite (add_then_remove kind policies (policyStore w) Hwf) in Hrm.
  cbn [fst snd truthy] in Hrm.
  assert (PolicyStore.getMasterPolicyList kind
            (PolicyStore.setPartition kind
               {| PolicyStore.policyLists :=
                    PolicyStore.policyLists
                      (PolicyStore.partition kind (policyStore w));
                  PolicyStore.nextID :=
                    Pos.succ
                      (PolicyStore.nextID
                         (PolicyStore.partition kind (policyStore w))) |}
               (policyStore w))
          = master0) as Hmaster.
  { unfold master0, PolicyStore.getMasterPolicyList.
    by rewrite lists_rolled_back. }
  rewrite Hmaster in Hrm. rewrite Hrm. cbn [fst snd adapterCalls policyStore].
  split_and!.
  - by rewrite Hadd.
  - by rewrite <-app_assoc.
  - done.
  - intros k. apply lists_rolled_back.
  - intros k. unfold PolicyStore.getMasterPolicyList.
    by rewrite lists_rolled_back.
Qed.

Lemma add_then_committed_remove_witness :
  adapterCalls
    (_removePolicies accepting PolicyStore.KEYBOARD 2%positive (Some true)
       (_addPolicies accepting PolicyStore.KEYBOARD [letterRule]
          oneListWorld).2).2
  = [setKeyboardEventPropagationPolicy [escapeRule];
     setKeyboardEventPropagationPolicy [escapeRule; letterRule];
     setKeyboardEventPropagationPolicy [escapeRule]].
Proof.
  destruct (add_then_committed_remove accepting PolicyStore.KEYBOARD
              [letterRule] oneListWorld) as (_ & Hlog & _).
  - apply (bool_decide_unpack _). vm_compute. exact I.
  - reflexivity.
  - refine (eq_trans Hlog _). vm_compute. reflexivity.
Defined.

(** X7: swapping policies, the use the source names for a removal without
    [commit].  A removal without [commit] followed by an addition makes one
    adapter call in all, whose master list has the rules of the removed
    list struck out and the new rules at the end.  If that install is
    accepted the new list is registered in place of the old; if it is
    rejected only the addition is rolled back: the removed list does not
    come back. *)
Theorem swap_policies
    (adapter : Adapter) (kind : PolicyStore.eventKind) (id : ListID)
    (commit : option bool) (policies : list EventPolicy)
    (w : World PolicyStore.t) :
  let lists0 :=
    PolicyStore.policyLists (PolicyStore.partition kind (policyStore w)) in
  let master :=
    concat (filter (λ e, e.1 ≠ id) (PolicyStore.entries lists0)).*2
    ++ policies in
  let w1 := (_removePolicies adapter kind id commit w).2 in
  let r := _addPolicies adapter kind policies w1 in
  PolicyStore.wf (policyStore w) →
  truthy commit = false →
  adapterCalls r.2 = adapterCalls w ++ [commitFn kind master]
  ∧ (adapter (adapterCalls w) (commitFn kind master) = None →
     r.1 = Resolved
             (PolicyStore.nextID (PolicyStore.partition kind (policyStore w)))
     ∧ PolicyStore.policyLists (PolicyStore.partition kind (policyStore r.2))
       = <[PolicyStore.nextID (PolicyStore.partition kind (policyStore w))
           := policies]> (delete id lists0))
  ∧ (∀ err,
     adapter (adapterCalls w) (commitFn kind master) = Some err →
     r.1 = Rejected err
     ∧ PolicyStore.policyLists (PolicyStore.partition kind (policyStore r.2))
       = delete id lists0).
Proof.
  intros lists0 master w1 r Hwf Hcommit.
  assert (policyStore w1
          = (PolicyStore.removePolicyList kind id (policyStore w)).2) as Hst.
  { unfold w1. apply _removePolicies_store. }
  assert (adapterCalls w1 = adapterCalls w) as Hlog.
  { unfold w1. rewrite _removePolicies_model. cbn zeta. rewrite Hcommit.
    by destruct (PolicyStore.removePolicyList kind id (policyStore w)).1. }
  assert (PolicyStore.wf (policyStore w1)) as Hwf1.
  { rewrite Hst. by apply wf_removePolicyList. }
  pose proof (_addPolicies_model adapter kind policies w1 Hwf1) as Hadd.
  cbn zeta in Hadd. fold r in Hadd.
  rewrite (master_addPolicyList kind policies (policyStore w1) Hwf1) in Hadd.
  rewrite Hlog, Hst, master_removePolicyList in Hadd.
  fold lists0 in Hadd. fold master in Hadd.
  split_and!.
  - rewrite Hadd. by destruct (adapter (adapterCalls w) (commitFn kind master)).
  - intros Hok. rewrite Hadd, Hok. cbn [fst snd policyStore]. split.
    + unfold PolicyStore.addPolicyList. cbn [fst].
      by rewrite removePolicyList_nextID.
    + unfold PolicyStore.addPolicyList. cbn [snd].
      rewrite partition_setPartition. cbn [PolicyStore.policyLists].
      by rewrite removePolicyList_nextID, removePolicyList_lists.
  - intros err Hfail. rewrite Hadd, Hfail. cbn [fst snd policyStore].
    split; [done|].
    by rewrite lists_rolled_back, removePolicyList_lists.
Qed.

Lemma swap_policies_witness :
  let r :=
    _addPolicies rejecting PolicyStore.KEYBOARD [letterRule]
      (_removePolicies rejecting PolicyStore.KEYBOARD 1%positive None
         oneListWorld).2 in
  adapterCalls r.2
  = [setKeyboardEventPropagationPolicy [escapeRule];
     setKeyboardEventPropagationPolicy [letterRule]]
  ∧ r.1 = Rejected installFailed
  ∧ PolicyStore.policyLists
      (PolicyStore.keyboard (policyStore r.2))
    = ∅.
Proof.
  destruct (swap_policies rejecting PolicyStore.KEYBOARD 1%positive None
              [letterRule] oneListWorld) as (Hlog & _ & Hfail).
  - apply (bool_decide_unpack _). vm_compute. exact I.
  - reflexivity.
  - destruct (Hfail installFailed) as [Hout Hlists]; [reflexivity|].
    split_and!.
    + refine (eq_trans Hlog _). vm_compute. reflexivity.
    + exact Hout.
    + refine (eq_trans Hlists _). vm_compute. reflexivity.
Defined.

(** ** Sessions *)

Section session_theory.
Variable adapter : Adapter.
Variable kind : PolicyStore.eventKind.

Abbreviation listsOf w :=
  (PolicyStore.policyLists (PolicyStore.partition kind (policyStore w))).

(** What an addition does to the caller's ledger and to the store. *)
Lemma add_ledger kind' policies (w : World PolicyStore.t) :
  PolicyStore.wf (policyStore w) →
  match (_addPolicies adapter kind' policies w).1 with
  | Resolved id =>
      if decide (kind' = kind)
      then PolicyStore.entries (listsOf w) ++ [(id, policies)]
      else PolicyStore.entries (listsOf w)
  | _ => PolicyStore.entries (listsOf w)
  end
  = PolicyStore.entries (listsOf (_addPolicies adapter kind' policies w).2).
Proof.
  intros Hwf. rewrite _addPolicies_model by done.
  destruct (adapter (adapterCalls w) _) as [err|]; cbn [fst snd policyStore].
  - by rewrite lists_rolled_back.
  - destruct (decide (kind' = kind)) as [->|Hne].
    + unfold PolicyStore.addPolicyList. cbn [fst snd].
      rewrite partition_setPartition. cbn [PolicyStore.policyLists].
      by rewrite entries_insert_last by by apply (wf_partition kind).
    + by rewrite addPolicyList_other.
Qed.

(** What a removal does to them. *)
Lemma remove_ledger kind' id commit (w : World PolicyStore.t) :
  (if decide (kind' = kind)
   then filter (λ e, e.1 ≠ id) (PolicyStore.entries (listsOf w))
   else PolicyStore.entries (listsOf w))
  = PolicyStore.entries
      (listsOf (_removePolicies adapter kind' id commit w).2).
Proof.
  rewrite _removePolicies_store.
  destruct (decide (kind' = kind)) as [->|Hne].
  - by rewrite removePolicyList_lists, entries_delete.
  - by rewrite removePolicyList_other.
Qed.

Lemma removePolicies_not_thrown kind' id commit (w : World PolicyStore.t) err :
  (_removePolicies adapter kind' id commit w).1 ≠ Thrown err.
Proof.
  rewrite _removePolicies_model. cbn zeta.
  destruct (PolicyStore.removePolicyList kind' id (policyStore w)).1;
    [|done].
  destruct (truthy commit); [|done].
  by destruct (adapter (adapterCalls w) _).
Qed.

(** One request: the ledger follows the store, the store stays well
    formed, and nothing is thrown. *)
Lemma perform_ledger r (w : World PolicyStore.t) :
  PolicyStore.wf (policyStore w) →
  PolicyStore.wf (policyStore (perform adapter r w).2)
  ∧ record kind r (perform adapter r w).1 (PolicyStore.entries (listsOf w))
    = PolicyStore.entries (listsOf (perform adapter r w).2)
  ∧ ∀ err, (perform adapter r w).1 ≠ Thrown err.
Proof.
  intros Hwf.
  destruct r as [propagate key modifiers|policies|id commit|policies
                |id commit|].
  - set (policy :=
      KeyboardEventPolicy
        (if propagate
         then adapterUI.policyAction.ALWAYS_PROPAGATE
         else adapterUI.policyAction.NEVER_PROPAGATE)
        adapterOS.eventKind.KEY_DOWN modifiers key).
    pose proof (add_ledger PolicyStore.KEYBOARD [policy] w Hwf) as Hl.
    pose proof (wf_addPolicies adapter PolicyStore.KEYBOARD [policy] w Hwf)
      as Hwf'.
    destruct (addPolicies_settles_as_install adapter PolicyStore.KEYBOARD
                [policy] w) as [_ Hnt].
    change (perform adapter (AddKeydownPolicy propagate key modifiers) w)
      with (let '(o, w') := _addPolicies adapter PolicyStore.KEYBOARD
                              [policy] w in
            (outcome_map Some o, w')).
    unfold record. cbn [addition removal]. fold policy.
    destruct (_addPolicies adapter PolicyStore.KEYBOARD [policy] w)
      as [[id|err|err] w'];
      cbn [fst snd outcome_map] in *; split_and!; try done.
    by specialize (Hnt err).
  - pose proof (add_ledger PolicyStore.KEYBOARD policies w Hwf) as Hl.
    pose proof (wf_addPolicies adapter PolicyStore.KEYBOARD policies w Hwf)
      as Hwf'.
    destruct (addPolicies_settles_as_install adapter PolicyStore.KEYBOARD
                policies w) as [_ Hnt].
    change (perform adapter (AddKeyboardPolicies policies) w)
      with (let '(o, w') := _addPolicies adapter PolicyStore.KEYBOARD
                              policies w in
            (outcome_map Some o, w')).
    unfold record. cbn [addition removal].
    destruct (_addPolicies adapter PolicyStore.KEYBOARD policies w)
      as [[id|err|err] w'];
      cbn [fst snd outcome_map] in *; split_and!; try done.
    by specialize (Hnt err).
  - pose proof (remove_ledger PolicyStore.KEYBOARD id commit w) as Hl.
    pose proof (wf_removePolicies adapter PolicyStore.KEYBOARD id commit w
                  Hwf) as Hwf'.
    pose proof (removePolicies_not_thrown PolicyStore.KEYBOARD id commit w)
      as Hnt.
    change (perform adapter (RemoveKeyboardPolicies id commit) w)
      with (let '(o, w') := _removePolicies adapter PolicyStore.KEYBOARD
                              id commit w in
            (outcome_map (λ _, @None ListID) o, w')).
    unfold record. cbn [addition removal].
    destruct (_removePolicies adapter PolicyStore.KEYBOARD id commit w)
      as [[[]|err|err] w'];
      cbn [fst snd outcome_map] in *; split_and!; try done.
    by specialize (Hnt err).
  - pose proof (add_ledger PolicyStore.POINTER policies w Hwf) as Hl.
    pose proof (wf_addPolicies adapter PolicyStore.POINTER policies w Hwf)
      as Hwf'.
    destruct (addPolicies_settles_as_install adapter PolicyStore.POINTER
                policies w) as [_ Hnt].
    change (perform adapter (AddPointerPolicies policies) w)
      with (let '(o, w') := _addPolicies adapter PolicyStore.POINTER
                              policies w in
            (outcome_map Some o, w')).
    unfold record. cbn [addition removal].
    destruct (_addPolicies adapter PolicyStore.POINTER policies w)
      as [[id|err|err] w'];
      cbn [fst snd outcome_map] in *; split_and!; try done.
    by specialize (Hnt err).
  - pose proof (remove_ledger PolicyStore.POINTER id commit w) as Hl.
    pose proof (wf_removePolicies adapter PolicyStore.POINTER id commit w
                  Hwf) as Hwf'.
    pose proof (removePolicies_not_thrown PolicyStore.POINTER id commit w)
      as Hnt.
    change (perform adapter (RemovePointerPolicies id commit) w)
      with (let '(o, w') := _removePolicies adapter PolicyStore.POINTER
                              id commit w in
            (outcome_map (λ _, @None ListID) o, w')).
    unfold record. cbn [addition removal].
    destruct (_removePolicies adapter PolicyStore.POINTER id commit w)
      as [[[]|err|err] w'];
      cbn [fst snd outcome_map] in *; split_and!; try done.
    by specialize (Hnt err).
  - unfold perform, record. cbn.
    split_and!; [done|done|].
    intros err. by destruct (adapter (adapterCalls w) _).
Qed.

Lemma session_ledger rs : ∀ (w : World PolicyStore.t),
  PolicyStore.wf (policyStore w) →
  PolicyStore.wf (policyStore (session adapter rs w).2)
  ∧ sessionLedger kind rs (session adapter rs w).1
      (PolicyStore.entries (listsOf w))
    = PolicyStore.entries (listsOf (session adapter rs w).2)
  ∧ Forall (λ o, ∀ err, o ≠ Thrown err) (session adapter rs w).1.
Proof.
  induction rs as [|r rs IH]; intros w Hwf.
  - cbn. split_and!; [done|done|constructor].
  - destruct (perform_ledger r w Hwf) as (Hwf1 & Hrec & Hnt).
    cbn [session].
    destruct (perform adapter r w) as [o w1]. cbn [fst snd] in *.
    destruct (IH w1 Hwf1) as (Hwf2 & Hled & Hall).
    destruct (session adapter rs w1) as [os w2]. cbn [fst snd] in *.
    cbn [sessionLedger]. rewrite Hrec. split_and!; [done|done|].
    by constructor.
Qed.

End session_theory.

(** X8: for every session of the exported actions, started on the store of
    a fresh application and with Photoshop answering each call as it
    likes, the master list of a category is the concatenation of the
    caller's ledger: the lists whose addition resolved and which no later
    removal request named, each once, oldest first.  An addition that was
    rejected leaves no rules behind; a removal counts even when it was not
    committed or its install was rejected.  The identifiers on the ledger
    are strictly ascending, so none was handed out twice, and no request of
    the session throws. *)
Theorem session_master_list
    (adapter : Adapter) (kind : PolicyStore.eventKind) (rs : list Request) :
  PolicyStore.getMasterPolicyList kind
    (policyStore (session adapter rs freshWorld).2)
  = concat (sessionLedger kind rs (session adapter rs freshWorld).1 []).*2
  ∧ StronglySorted Pos.lt
      (sessionLedger kind rs (session adapter rs freshWorld).1 []).*1
  ∧ Forall (λ o, ∀ err, o ≠ Thrown err) (session adapter rs freshWorld).1.
Proof.
  destruct (session_ledger adapter kind rs freshWorld wf_initial)
    as (_ & Hled & Hnt).
  assert (PolicyStore.entries
            (PolicyStore.policyLists
               (PolicyStore.partition kind (policyStore freshWorld)))
          = []) as Hnil.
  { destruct kind; cbn; apply entries_empty. }
  rewrite Hnil in Hled. split_and!.
  - unfold PolicyStore.getMasterPolicyList. by rewrite Hled.
  - rewrite Hled. apply sorted_fst, entries_sorted.
  - done.
Qed.

Section session_log.
Context {S : Type} `{!PolicyStoreOps S}.
Variable adapter : Adapter.

Lemma _addPolicies_log kind policies (w : World S) :
  ∃ call, adapterCalls (_addPolicies adapter kind policies w).2
          = adapterCalls w ++ [call].
Proof.
  destruct (addPolicies_settles_as_install adapter kind policies w)
    as [-> _].
  destruct (adapter (adapterCalls w) _); by eexists.
Qed.

Lemma _removePolicies_log kind id commit (w : World S) :
  ∃ calls, adapterCalls (_removePolicies adapter kind id commit w).2
           = adapterCalls w ++ calls
           ∧ (length calls ≤ 1)%nat.
Proof.
  rewrite _removePolicies_unfold. cbn zeta.
  destruct (removePolicyList kind id (policyStore w)) as [[[|]|err] store1];
    cbn [fst snd].
  - destruct (truthy commit); cbn [snd adapterCalls].
    + eexists. split; [done|]. cbn. lia.
    + exists []. rewrite app_nil_r. split; [done|]. cbn. lia.
  - exists []. rewrite app_nil_r. split; [done|]. cbn. lia.
  - exists []. rewrite app_nil_r. split; [done|]. cbn. lia.
Qed.

Lemma perform_log r (w : World S) :
  ∃ calls, adapterCalls (perform adapter r w).2 = adapterCalls w ++ calls
           ∧ (length calls ≤ 1)%nat.
Proof.
  destruct r as [propagate key modifiers|policies|id commit|policies
                |id commit|].
  - set (policy :=
      KeyboardEventPolicy
        (if propagate
         then adapterUI.policyAction.ALWAYS_PROPAGATE
         else adapterUI.policyAction.NEVER_PROPAGATE)
        adapterOS.eventKind.KEY_DOWN modifiers key).
    destruct (_addPolicies_log PolicyStore.KEYBOARD [policy] w)
      as [call Hlog].
    change (perform adapter (AddKeydownPolicy propagate key modifiers) w)
      with (let '(o, w') := _addPolicies adapter PolicyStore.KEYBOARD
                              [policy] w in
            (outcome_map Some o, w')).
    destruct (_addPolicies adapter PolicyStore.KEYBOARD [policy] w)
      as [o w']. cbn [snd] in *. exists [call]. split; [done|]. cbn. lia.
  - destruct (_addPolicies_log PolicyStore.KEYBOARD policies w)
      as [call Hlog].
    change (perform adapter (AddKeyboardPolicies policies) w)
      with (let '(o, w') := _addPolicies adapter PolicyStore.KEYBOARD
                              policies w in
            (outcome_map Some o, w')).
    destruct (_addPolicies adapter PolicyStore.KEYBOARD policies w)
      as [o w']. cbn [snd] in *. exists [call]. split; [done|]. cbn. lia.
  - destruct (_removePolicies_log PolicyStore.KEYBOARD id commit w)
      as (calls & Hlog & Hlen).
    change (perform adapter (RemoveKeyboardPolicies id commit) w)
      with (let '(o, w') := _removePolicies adapter PolicyStore.KEYBOARD
                              id commit w in
            (outcome_map (λ _, @None ListID) o, w')).
    destruct (_removePolicies adapter PolicyStore.KEYBOARD id commit w)
      as [o w']. cbn [snd] in *. by exists calls.
  - destruct (_addPolicies_log PolicyStore.POINTER policies w)
      as [call Hlog].
    change (perform adapter (AddPointerPolicies policies) w)
      with (let '(o, w') := _addPolicies adapter PolicyStore.POINTER
                              policies w in
            (outcome_map Some o, w')).
    destruct (_addPolicies adapter PolicyStore.POINTER policies w)
      as [o w']. cbn [snd] in *. exists [call]. split; [done|]. cbn. lia.
  - destruct (_removePolicies_log PolicyStore.POINTER id commit w)
      as (calls & Hlog & Hlen).
    change (perform adapter (RemovePointerPolicies id commit) w)
      with (let '(o, w') := _removePolicies adapter PolicyStore.POINTER
                              id commit w in
            (outcome_map (λ _, @None ListID) o, w')).
    destruct (_removePolicies adapter PolicyStore.POINTER id commit w)
      as [o w']. cbn [snd] in *. by exists calls.
  - eexists. split; [reflexivity|]. cbn. lia.
Qed.

End session_log.

(** X9: on any implementation of the store, a session makes at most one
    adapter call for each request: the log after the session is the log
    from before it, in the same order, followed by no more calls than
    there were requests, and every request has its outcome. *)
Theorem session_at_most_one_call_each
    {S : Type} `{!PolicyStoreOps S} (adapter : Adapter)
    (rs : list Request) (w : World S) :
  length (session adapter rs w).1 = length rs
  ∧ ∃ calls,
      adapterCalls (session adapter rs w).2 = adapterCalls w ++ calls
      ∧ (length calls ≤ length rs)%nat.
Proof.
  revert w. induction rs as [|r rs IH]; intros w.
  - cbn. split; [done|]. exists []. by rewrite app_nil_r.
  - destruct (perform_log adapter r w) as (calls1 & Hlog1 & Hlen1).
    cbn [session].
    destruct (perform adapter r w) as [o w1]. cbn [snd] in *.
    destruct (IH w1) as (Hlen & calls2 & Hlog2 & Hlen2).
    destruct (session adapter rs w1) as [os w2]. cbn [fst snd] in *.
    split; [cbn; by f_equal|].
    exists (calls1 ++ calls2). rewrite Hlog2, Hlog1, app_assoc.
    split; [done|]. rewrite length_app. cbn [length]. lia.
Qed.

Section session_ids.
Variable adapter : Adapter.
Variable kind : PolicyStore.eventKind.

Abbreviation nextOf w :=
  (PolicyStore.nextID (PolicyStore.partition kind (policyStore w))).

(** An addition moves the counter of its category on by one, whether the
    install is accepted or rejected, and resolves with the old counter. *)
Lemma add_nextID kind' policies (w : World PolicyStore.t) :
  nextOf (_addPolicies adapter kind' policies w).2
  = (if decide (kind' = kind) then Pos.succ (nextOf w) else nextOf w)
  ∧ ∀ id, (_addPolicies adapter kind' policies w).1 = Resolved id →
          id = PolicyStore.nextID (PolicyStore.partition kind' (policyStore w)).
Proof.
  destruct (addPolicies_settles_as_install adapter kind' policies w)
    as [-> _].
  assert (PolicyStore.nextID
            (PolicyStore.partition kind
               (PolicyStore.addPolicyList kind' policies (policyStore w)).2)
          = (if decide (kind' = kind) then Pos.succ (nextOf w) else nextOf w))
    as Hnext.
  { destruct (decide (kind' = kind)) as [->|Hne].
    - unfold PolicyStore.addPolicyList. cbn [snd].
      by rewrite partition_setPartition.
    - by rewrite addPolicyList_other. }
  destruct (adapter (adapterCalls w) _) as [err|]; cbn [fst snd policyStore].
  - split; [|done]. rewrite removePolicyList_model. cbn [snd].
    by rewrite removePolicyList_nextID.
  - split; [done|]. by intros id [= <-].
Qed.

Lemma perform_nextID r (w : World PolicyStore.t) :
  (nextOf w ≤ nextOf (perform adapter r w).2)%positive
  ∧ match addition r, (perform adapter r w).1 with
    | Some (k, _), Resolved (Some id) =>
        k = kind →
        id = nextOf w ∧ nextOf (perform adapter r w).2 = Pos.succ id
    | _, _ => True
    end.
Proof.
  assert (∀ kind' policies,
    (nextOf w ≤ nextOf (_addPolicies adapter kind' policies w).2)%positive
    ∧ match outcome_map Some (_addPolicies adapter kind' policies w).1 with
      | Resolved (Some id) =>
          kind' = kind →
          id = nextOf w
          ∧ nextOf (_addPolicies adapter kind' policies w).2 = Pos.succ id
      | _ => True
      end) as Hadd.
  { intros kind' policies.
    destruct (add_nextID kind' policies w) as [Hnext Hid]. split.
    - rewrite Hnext. destruct (decide (kind' = kind)); lia.
    - destruct (_addPolicies adapter kind' policies w).1 as [id|err|err];
        cbn [outcome_map]; [|done..].
      intros ->. rewrite (Hid id eq_refl). split; [done|].
      rewrite Hnext. by rewrite decide_True. }
  assert (∀ kind' id commit,
    nextOf (_removePolicies adapter kind' id commit w).2 = nextOf w)
    as Hremove.
  { intros kind' id commit.
    by rewrite _removePolicies_store, removePolicyList_nextID. }
  destruct r as [propagate key modifiers|policies|id commit|policies
                |id commit|].
  - set (policy :=
      KeyboardEventPolicy
        (if propagate
         then adapterUI.policyAction.ALWAYS_PROPAGATE
         else adapterUI.policyAction.NEVER_PROPAGATE)
        adapterOS.eventKind.KEY_DOWN modifiers key).
    specialize (Hadd PolicyStore.KEYBOARD [policy]).
    change (perform adapter (AddKeydownPolicy propagate key modifiers) w)
      with (let '(o, w') := _addPolicies adapter PolicyStore.KEYBOARD
                              [policy] w in
            (outcome_map Some o, w')).
    cbn [addition].
    by destruct (_addPolicies adapter PolicyStore.KEYBOARD [policy] w).
  - specialize (Hadd PolicyStore.KEYBOARD policies).
    change (perform adapter (AddKeyboardPolicies policies) w)
      with (let '(o, w') := _addPolicies adapter PolicyStore.KEYBOARD
                              policies w in
            (outcome_map Some o, w')).
    cbn [addition].
    by destruct (_addPolicies adapter PolicyStore.KEYBOARD policies w).
  - specialize (Hremove PolicyStore.KEYBOARD id commit).
    change (perform adapter (RemoveKeyboardPolicies id commit) w)
      with (let '(o, w') := _removePolicies adapter PolicyStore.KEYBOARD
                              id commit w in
            (outcome_map (λ _, @None ListID) o, w')).
    cbn [addition].
    destruct (_removePolicies adapter PolicyStore.KEYBOARD id commit w).
    cbn [snd] in *. rewrite Hremove. split; [lia|done].
  - specialize (Hadd PolicyStore.POINTER policies).
    change (perform adapter (AddPointerPolicies policies) w)
      with (let '(o, w') := _addPolicies adapter PolicyStore.POINTER
                              policies w in
            (outcome_map Some o, w')).
    cbn [addition].
    by destruct (_addPolicies adapter PolicyStore.POINTER policies w).
  - specialize (Hremove PolicyStore.POINTER id commit).
    change (perform adapter (RemovePointerPolicies id commit) w)
      with (let '(o, w') := _removePolicies adapter PolicyStore.POINTER
                              id commit w in
            (outcome_map (λ _, @None ListID) o, w')).
    cbn [addition].
    destruct (_removePolicies adapter PolicyStore.POINTER id commit w).
    cbn [snd] in *. rewrite Hremove. split; [lia|done].
  - cbn. split; [lia|done].
Qed.

Lemma session_ids rs : ∀ (w : World PolicyStore.t),
  StronglySorted Pos.lt (resolvedIds kind rs (session adapter rs w).1)
  ∧ Forall (λ id, (nextOf w ≤ id)%positive)
      (resolvedIds kind rs (session adapter rs w).1).
Proof.
  induction rs as [|r rs IH]; intros w.
  - cbn. split; constructor.
  - destruct (perform_nextID r w) as [Hmono Hid]. cbn [session].
    destruct (perform adapter r w) as [o w1]. cbn [fst snd] in *.
    destruct (IH w1) as [Hsorted Hall].
    destruct (session adapter rs w1) as [os w2]. cbn [fst snd] in *.
    cbn [resolvedIds].
    assert (Forall (λ id, (nextOf w ≤ id)%positive)
              (resolvedIds kind rs os)) as Hall'.
    { eapply Forall_impl; [exact Hall|]. cbn. intros. lia. }
    destruct (addition r) as [[k policies]|]; [|done].
    destruct o as [[id|]|err|err]; try done.
    destruct (decide (k = kind)) as [Hk|Hk]; [|done].
    destruct (Hid Hk) as [-> Hnext]. rewrite Hnext in Hall. split.
    + constructor; [done|].
      eapply Forall_impl; [exact Hall|]. cbn. intros. lia.
    + constructor; [lia|done].
Qed.

End session_ids.

(** X10: identifiers are not handed out twice.  In every session, from
    any store and with Photoshop answering as it likes, the identifiers
    with which the additions to one category resolved are strictly
    ascending in the order of the requests, whatever was removed or
    rejected in between. *)
Theorem session_ids_ascending
    (adapter : Adapter) (kind : PolicyStore.eventKind) (rs : list Request)
    (w : World PolicyStore.t) :
  StronglySorted Pos.lt (resolvedIds kind rs (session adapter rs w).1).
Proof. apply session_ids. Qed.
